(** * WordCount: word statistics of a source text

    A shallow embedding of [src/cpp-project/src/WordCount.cpp]: the tokenizer
    ([getWordDataFromCode], in its two modes), the per-word statistics
    ([WordStats], [wordStats]), the line count ([numberOfLines]) and the
    ranking ([getWordCount]).

    Conventions of the model.
    - A [std::string] is a [list ascii]; an iterator into it is a position
      [0 .. length code], [end(code)] being [length code].
    - [size_t] is 64 bits wide: a value is a [Z] in [0, 2^64) and every
      arithmetic operation on it is reduced with [Size.wrap].
    - [isalnum] and [isupper] are those of the "C" locale (the program never
      calls [setlocale]); bytes above 127 are in neither class.
    - [std::map] is the list of its entries in ascending key order.
    - [std::sort] is given by its contract (a permutation of the input that is
      sorted for the comparator); the standard does not say in which order it
      leaves equivalent elements, so the model is a relation. *)

From Stdlib Require Import ZArith Ascii String List Bool Lia.
From Stdlib Require Import Permutation Sorted QArith.
From Stdlib Require Import Floats.SpecFloat.
Import ListNotations.
Local Open Scope Z_scope.

(** ** Machine integers *)

Module Size.
Definition bits : Z := 64.
Definition modulus : Z := 2 ^ bits.

(** Conversion to [size_t], and the result of [size_t] arithmetic. *)
Definition wrap (z : Z) : Z := z mod modulus.

(** Largest value of [ptrdiff_t], the type [std::count] returns. *)
Definition PTRDIFF_MAX : Z := 2 ^ 63 - 1.
End Size.

(** ** Characters and strings *)

Definition code_of (c : ascii) : Z := Z.of_N (N_of_ascii c).

Definition isdigit (c : ascii) : bool := (48 <=? code_of c) && (code_of c <=? 57).
Definition isupper (c : ascii) : bool := (65 <=? code_of c) && (code_of c <=? 90).
Definition islower (c : ascii) : bool := (97 <=? code_of c) && (code_of c <=? 122).
Definition isalpha (c : ascii) : bool := isupper c || islower c.
Definition isalnum (c : ascii) : bool := isalpha c || isdigit c.

Definition newline : ascii := "010"%char.
Definition underscore : ascii := "_"%char.

(** [operator<] of [std::string]: lexicographic on the bytes as unsigned
    values, a proper prefix being smaller. *)
Fixpoint string_lt (a b : list ascii) : bool :=
  match a, b with
  | _, [] => false
  | [], _ :: _ => true
  | x :: a', y :: b' =>
      if code_of x <? code_of y then true
      else if code_of y <? code_of x then false
      else string_lt a' b'
  end.

Definition string_le (a b : list ascii) : bool := negb (string_lt b a).

(** String literals of the examples. *)
Definition str (s : string) : list ascii := list_ascii_of_string s.

(** ** The [Comparable] base: every operator derived from [<] *)

(** [Derived] provides [operator<]; [Comparable<Derived>] adds the others. *)
Class Less (Derived : Type) := less : Derived -> Derived -> bool.

Module Comparable.
Section Operators.
Context {Derived : Type} `{Less Derived}.

Definition ge (this other : Derived) : bool := negb (less this other).
Definition le (this other : Derived) : bool := negb (less other this).
Definition gt (this other : Derived) : bool := negb (le this other).
Definition eq (this other : Derived) : bool :=
  negb (less this other) && negb (less other this).
Definition ne (this other : Derived) : bool := negb (eq this other).
End Operators.
End Comparable.

(** ** [WordStats] *)

Record WordStats := mkWordStats {
  totalNumberOfLines_ : Z;
  nbOccurrences_ : Z;
  lowestOccurringLine_ : Z;
  highestOccurringLine_ : Z
}.

(** The default constructor: every member is zero. *)
Definition WordStats_new : WordStats := mkWordStats 0 0 0 0.

Definition nbOccurrences (s : WordStats) : Z := nbOccurrences_ s.

Definition addOneOccurrence (lineNumber : Z) (s : WordStats) : WordStats :=
  let n := Size.wrap (nbOccurrences_ s + 1) in
  if n =? 1 then
    mkWordStats (totalNumberOfLines_ s) n lineNumber lineNumber
  else
    mkWordStats (totalNumberOfLines_ s) n
      (Z.min (lowestOccurringLine_ s) lineNumber)
      (Z.max (highestOccurringLine_ s) lineNumber).

Definition span (s : WordStats) : Z :=
  if nbOccurrences_ s =? 0 then 0
  else Size.wrap (highestOccurringLine_ s - lowestOccurringLine_ s + 1).

Definition totalNumberOfLines (s : WordStats) : Z := totalNumberOfLines_ s.

Definition setTotalNumberOfLines (totalNumberOfLines : Z) (s : WordStats) : WordStats :=
  mkWordStats totalNumberOfLines (nbOccurrences_ s)
    (lowestOccurringLine_ s) (highestOccurringLine_ s).

(** [double] is IEEE 754 binary64, with rounding to nearest even. *)
Module Double.
Definition prec : Z := 53.
Definition emax : Z := 1024.

(** Conversion of an integer to [double]. *)
Definition of_Z (z : Z) : spec_float := binary_normalize prec emax z 0 false.
Definition div (x y : spec_float) : spec_float := SFdiv prec emax x y.

(** The exact value of a finite [double]. *)
Definition to_Q (f : spec_float) : option Q :=
  match f with
  | S754_zero _ => Some (0 # 1)%Q
  | S754_finite s m e =>
      let v := (inject_Z (Z.pos m) * Qpower (2 # 1) e)%Q in
      Some (if s then Qopp v else v)
  | _ => None
  end.

(** The [double] [f] is finite and its value is the rational [q]. *)
Definition equals (f : spec_float) (q : Q) : Prop :=
  match to_Q f with
  | Some v => Qeq v q
  | None => False
  end.
End Double.

Definition proportion (s : WordStats) : spec_float :=
  if totalNumberOfLines s =? 0 then Double.of_Z 0
  else Double.div (Double.of_Z (span s)) (Double.of_Z (totalNumberOfLines s)).

#[export] Instance WordStats_less : Less WordStats :=
  fun wordStats1 wordStats2 => nbOccurrences wordStats1 <? nbOccurrences wordStats2.

(** ** [WordData] *)

Record WordData := mkWordData {
  word : list ascii;
  lineNumber : Z
}.

#[export] Instance WordData_less : Less WordData :=
  fun wordData1 wordData2 =>
    if string_lt (word wordData1) (word wordData2) then true
    else if string_lt (word wordData2) (word wordData1) then false
    else lineNumber wordData1 <? lineNumber wordData2.

(** ** The tokenizer *)

Definition isDelimiter (c : ascii) : bool :=
  let isAllowedInName := isalnum c || Ascii.eqb c underscore in
  negb isAllowedInName.

(** The algorithms of the standard library the tokenizer calls, on
    positions of [code]. *)
Module Std.
Definition end_ (code : list ascii) : nat := length code.

(** The characters of the range [[first, last)]. *)
Definition range (code : list ascii) (first last : nat) : list ascii :=
  firstn (last - first) (skipn first code).

Fixpoint find_if_in (l : list ascii) (first : nat) (pred : ascii -> bool) : nat :=
  match l with
  | [] => first
  | c :: l' => if pred c then first else find_if_in l' (S first) pred
  end.

Definition find_if (code : list ascii) (first last : nat) (pred : ascii -> bool) : nat :=
  find_if_in (range code first last) first pred.

Definition find_if_not (code : list ascii) (first last : nat) (pred : ascii -> bool) : nat :=
  find_if code first last (fun c => negb (pred c)).

(** [std::count] returns a [ptrdiff_t]: the number of matches, which is at
    most the length of the range. *)
Definition count (code : list ascii) (first last : nat) (value : ascii) : Z :=
  Z.of_nat (count_occ ascii_dec (range code first last) value).

Definition next (it : nat) : nat := S it.
End Std.

(** The variables of [getWordDataFromCode]. *)
Record Scan := mkScan {
  words : list WordData;
  endWord : nat;
  beginWord : nat;
  line : Z
}.

(** One turn of the [while] loop. *)
Definition scan_step (code : list ascii) (isEndOfWord : ascii -> bool) (st : Scan) : Scan :=
  let linesBetweenWords := Std.count code (endWord st) (beginWord st) newline in
  let line' := Size.wrap (line st + linesBetweenWords) in
  let endWord' := Std.find_if code (Std.next (beginWord st)) (Std.end_ code) isEndOfWord in
  let words' := words st ++ [mkWordData (Std.range code (beginWord st) endWord') line'] in
  let beginWord' := Std.find_if_not code endWord' (Std.end_ code) isDelimiter in
  mkScan words' endWord' beginWord' line'.

(** The loop, with a bound on the number of turns; [None] when the bound
    is reached before the loop condition fails. *)
Fixpoint scan_loop (fuel : nat) (code : list ascii) (isEndOfWord : ascii -> bool)
    (st : Scan) : option (list WordData) :=
  if (beginWord st =? Std.end_ code)%nat then Some (words st)
  else
    match fuel with
    | O => None
    | S fuel' => scan_loop fuel' code isEndOfWord (scan_step code isEndOfWord st)
    end.

Definition scan_init (code : list ascii) : Scan :=
  mkScan [] 0 (Std.find_if_not code 0 (Std.end_ code) isDelimiter) 0.

(** The template [getWordDataFromCode(code, isEndOfWord)]. *)
Definition getWordDataFromCode_pred (code : list ascii) (isEndOfWord : ascii -> bool)
  : option (list WordData) :=
  scan_loop (length code) code isEndOfWord (scan_init code).

Inductive HowToDelimitWords := EntireWords | WordsInCamelCase.

Definition isEndOfWord_of (how : HowToDelimitWords) : ascii -> bool :=
  match how with
  | EntireWords => isDelimiter
  | WordsInCamelCase => fun c => isDelimiter c || isupper c
  end.

Definition getWordDataFromCode (how : HowToDelimitWords) (code : list ascii)
  : option (list WordData) :=
  getWordDataFromCode_pred code (isEndOfWord_of how).

(** ** The statistics map *)

Module StdMap.
Definition t : Type := list (list ascii * WordStats).

Definition empty : t := [].

(** [f] applied through the reference [m[key]]: the entry of [key] is
    created with a default value when the map has none. *)
Fixpoint update_ref (key : list ascii) (f : WordStats -> WordStats) (m : t) : t :=
  match m with
  | [] => [(key, f WordStats_new)]
  | (k, v) :: m' =>
      if string_lt key k then (key, f WordStats_new) :: m
      else if string_lt k key then (k, v) :: update_ref key f m'
      else (k, f v) :: m'
  end.
End StdMap.

Definition wordStats (wordData : list WordData) (numberOfLines : Z) : StdMap.t :=
  fold_left
    (fun wordStats oneWordData =>
       StdMap.update_ref (word oneWordData)
         (fun oneWordStats =>
            addOneOccurrence (lineNumber oneWordData)
              (setTotalNumberOfLines numberOfLines oneWordStats))
         wordStats)
    wordData StdMap.empty.

Definition numberOfLines (code : list ascii) : Z :=
  Size.wrap (Std.count code 0 (Std.end_ code) newline + 1).

(** ** The ranking *)

Definition WordCount : Type := list (list ascii * WordStats).

(** [comp] never puts a later element strictly before an earlier one. *)
Definition sorted_by {A : Type} (comp : A -> A -> bool) (l : list A) : Prop :=
  StronglySorted (fun a b => comp b a = false) l.

(** The contract of [std::sort(first, last, comp)]. *)
Definition std_sort {A : Type} (comp : A -> A -> bool) (input output : list A) : Prop :=
  Permutation input output /\ sorted_by comp output.

Definition rank_comp (p1 p2 : list ascii * WordStats) : bool :=
  Comparable.gt (snd p1) (snd p2).

Definition getWordCount (code : list ascii) (sortedWordCount : WordCount) : Prop :=
  exists words,
    getWordDataFromCode WordsInCamelCase code = Some words /\
    let wordCount := wordStats words (numberOfLines code) in
    std_sort rank_comp wordCount sortedWordCount.

(** One sort that meets the contract: insertion from the left, an element
    being placed after the elements it is not strictly before. *)
Fixpoint insert_sorted {A : Type} (comp : A -> A -> bool) (x : A) (l : list A) : list A :=
  match l with
  | [] => [x]
  | y :: l' => if comp x y then x :: l else y :: insert_sorted comp x l'
  end.

Definition insertion_sort {A : Type} (comp : A -> A -> bool) (l : list A) : list A :=
  fold_left (fun acc x => insert_sorted comp x acc) l [].

(** [getWordCount] with that sort. *)
Definition getWordCount_insertion (code : list ascii) : option WordCount :=
  match getWordDataFromCode WordsInCamelCase code with
  | Some words => Some (insertion_sort rank_comp (wordStats words (numberOfLines code)))
  | None => None
  end.

(** The text the program can hold: its length, with the terminating zero,
    is at most [PTRDIFF_MAX]. *)
Definition representable (code : list ascii) : Prop :=
  Z.of_nat (length code) < Size.PTRDIFF_MAX.

(** ** Specification vocabulary *)

(** What holds of the variables of the tokenizer at the head of the loop. *)
Record ScanInv (code : list ascii) (st : Scan) : Prop := {
  inv_order : (endWord st <= beginWord st <= length code)%nat;
  inv_line : line st = Std.count code 0 (endWord st) newline;
  inv_begin : beginWord st = length code \/
              exists c rest, skipn (beginWord st) code = c :: rest /\ isDelimiter c = false;
  inv_count : (length (words st) <= endWord st)%nat;
  inv_lines : Forall (fun w => 0 <= lineNumber w <= line st) (words st);
  inv_sorted : StronglySorted (fun a b => lineNumber a <= lineNumber b) (words st)
}.

(** Sum of the occurrence counts of a sequence of entries. *)
Definition total_occurrences (l : list (list ascii * WordStats)) : Z :=
  fold_right (fun e acc => nbOccurrences (snd e) + acc) 0 l.

(** What holds of the statistics of a word the aggregator has met, [N]
    being the number of lines it was given. *)
Record StatsInv (N : Z) (s : WordStats) : Prop := {
  stats_total : totalNumberOfLines s = N;
  stats_seen : 1 <= nbOccurrences s;
  stats_low : 0 <= lowestOccurringLine_ s;
  stats_order : lowestOccurringLine_ s <= highestOccurringLine_ s;
  stats_high : highestOccurringLine_ s < N;
  stats_single : nbOccurrences s = 1 -> lowestOccurringLine_ s = highestOccurringLine_ s
}.

(** The aggregator's step for one occurrence, on the statistics of its word. *)
Definition record_occurrence (numberOfLines : Z) (oneWordData : WordData)
    (oneWordStats : WordStats) : WordStats :=
  addOneOccurrence (lineNumber oneWordData)
    (setTotalNumberOfLines numberOfLines oneWordStats).

(** The keys of a map come in strictly ascending order. *)
Definition keys_ascending (m : StdMap.t) : Prop :=
  StronglySorted (fun a b => string_lt (fst a) (fst b) = true) m.

(** Ranked by occurrence count, the largest first. *)
Definition descending (l : WordCount) : Prop :=
  StronglySorted (fun a b => nbOccurrences (snd b) <= nbOccurrences (snd a)) l.

(** Adjacent entries of equal count come in lexicographic order of their words. *)
Definition ties_lexicographic (l : WordCount) : Prop :=
  forall pre a b post,
    l = pre ++ a :: b :: post ->
    nbOccurrences (snd a) = nbOccurrences (snd b) ->
    string_le (fst a) (fst b) = true.

(** The entries of one occurrence count. *)
Definition of_count (c : Z) (l : WordCount) : WordCount :=
  filter (fun e => nbOccurrences (snd e) =? c) l.

(** [output] has the entries of every count in the order [input] has them. *)
Definition keeps_ties (input output : WordCount) : Prop :=
  forall c, of_count c output = of_count c input.

(** ** The texts of the examples *)

Definition text_a_b : list ascii := str "a" ++ newline :: str "b".
Definition text_a_b_nl : list ascii := str "a" ++ newline :: str "b" ++ [newline].
Definition text_cat_dog_cat : list ascii :=
  str "cat" ++ newline :: str "dog" ++ newline :: str "cat" ++ [newline].
Definition text_fooBar : list ascii := str "fooBar baz_qux".

Definition cat_stats : WordStats := mkWordStats 4 2 0 2.
Definition dog_stats : WordStats := mkWordStats 4 1 1 1.
Definition ranking_cat_dog_cat : WordCount :=
  [(str "cat", cat_stats); (str "dog", dog_stats)].

(** The statistics of a word met at [lines], in that order. *)
Definition occurrences_recorded (lines : list Z) : WordStats :=
  fold_left (fun s lineNumber => addOneOccurrence lineNumber s) lines WordStats_new.

(** Seventeen words, each met once on the only line, and one ranking of them. *)
Definition text_17_words : list ascii := str "a b c d e f g h i j k l m n o p q".
Definition ranking_17_words : WordCount :=
  map (fun w => (str w, mkWordStats 1 1 0 0))
    ["i"; "q"; "p"; "o"; "n"; "m"; "l"; "k"; "j"; "a"; "h"; "g"; "f"; "e"; "d"; "c"; "b"]%string.

Definition text_b_a : list ascii := str "b a".
Definition ranking_b_a : WordCount :=
  [(str "a", mkWordStats 1 1 0 0); (str "b", mkWordStats 1 1 0 0)].

(** No character of the text is a delimiter. *)
Definition no_delimiter (code : list ascii) : bool :=
  forallb (fun c => negb (isDelimiter c)) code.

(** Number of upper-case letters. *)
Definition count_upper (l : list ascii) : nat := length (filter isupper l).

(** What holds at the head of the loop on a text without delimiter: the
    words met so far are the text up to [beginWord], cut before the
    characters, the first apart, that end a word. *)
Record CutInv (code : list ascii) (isEndOfWord : ascii -> bool) (st : Scan) : Prop := {
  cut_end : endWord st = beginWord st;
  cut_bound : (beginWord st <= length code)%nat;
  cut_line : line st = 0;
  cut_lines : Forall (fun w => lineNumber w = 0) (words st);
  cut_concat : concat (map word (words st)) = firstn (beginWord st) code;
  cut_count : length (words st) =
              if (beginWord st =? 0)%nat then 0%nat
              else S (length (filter isEndOfWord (Std.range code 1 (beginWord st))));
  cut_at : beginWord st = 0%nat \/ beginWord st = length code \/
           exists c rest, skipn (beginWord st) code = c :: rest /\ isEndOfWord c = true
}.

Definition text_aB : list ascii := str "aB".
Definition text_fooBar_word : list ascii := str "fooBar".

(** A word of the tokenizer in its place: the scan is at [from], skips
    delimiters up to [start], and the word runs from [start] to [stop]. *)
Record Placed (code : list ascii) (isEndOfWord : ascii -> bool)
    (from start stop : nat) (w : WordData) : Prop := {
  placed_order : (from <= start < stop)%nat /\ (stop <= length code)%nat;
  placed_gap : forallb isDelimiter (Std.range code from start) = true;
  placed_first : exists c rest, skipn start code = c :: rest /\ isDelimiter c = false;
  placed_inner :
    forallb (fun c => negb (isEndOfWord c)) (Std.range code (S start) stop) = true;
  placed_stop : stop = length code \/
                exists c rest, skipn stop code = c :: rest /\ isEndOfWord c = true;
  placed_word : word w = Std.range code start stop;
  placed_line : lineNumber w = Size.wrap (Std.count code 0 start newline)
}.

(** [Tokens code isEndOfWord ws stop]: the words [ws], in this order, are
    the words of the text from its beginning to [stop]. *)
Inductive Tokens (code : list ascii) (isEndOfWord : ascii -> bool)
  : list WordData -> nat -> Prop :=
| Tokens_nil : Tokens code isEndOfWord [] 0
| Tokens_snoc (ws : list WordData) (from start stop : nat) (w : WordData) :
    Tokens code isEndOfWord ws from ->
    Placed code isEndOfWord from start stop w ->
    Tokens code isEndOfWord (ws ++ [w]) stop.

(** What holds of the variables of the tokenizer at the head of the loop,
    whatever the length of the text. *)
Record TokInv (code : list ascii) (isEndOfWord : ascii -> bool) (st : Scan) : Prop := {
  tok_words : Tokens code isEndOfWord (words st) (endWord st);
  tok_order : (endWord st <= beginWord st <= length code)%nat;
  tok_gap : forallb isDelimiter (Std.range code (endWord st) (beginWord st)) = true;
  tok_begin : beginWord st = length code \/
              exists c rest, skipn (beginWord st) code = c :: rest /\ isDelimiter c = false;
  tok_line : line st = Size.wrap (Std.count code 0 (endWord st) newline)
}.

(** The occurrences of the word [k] in a sequence of occurrences. *)
Definition occurrences_of (k : list ascii) (ws : list WordData) : list WordData :=
  filter (fun w => if list_eq_dec ascii_dec (word w) k then true else false) ws.

(** The statistics the aggregator builds for a word met at [occ]. *)
Definition stats_of (N : Z) (occ : list WordData) : WordStats :=
  fold_left (fun s w => record_occurrence N w s) occ WordStats_new.

(** The value a map holds for a key, if any. *)
Fixpoint lookup (k : list ascii) (m : StdMap.t) : option WordStats :=
  match m with
  | [] => None
  | (k', v) :: m' => if list_eq_dec ascii_dec k k' then Some v else lookup k m'
  end.

(** The value [m[key]] refers to. *)
Definition referred (key : list ascii) (m : StdMap.t) : WordStats :=
  match lookup key m with
  | Some v => v
  | None => WordStats_new
  end.

(** * Properties *)

(** ** [size_t] arithmetic *)

Lemma wrap_small (z : Z) : 0 <= z < Size.modulus -> Size.wrap z = z.
Proof. intros Hz. unfold Size.wrap. now apply Z.mod_small. Qed.

Lemma modulus_value : Size.modulus = 18446744073709551616.
Proof. reflexivity. Qed.

Lemma ptrdiff_max_value : Size.PTRDIFF_MAX = 9223372036854775807.
Proof. reflexivity. Qed.

Ltac size_consts := rewrite ?modulus_value, ?ptrdiff_max_value in *.

(** ** Ranges and searches *)

Section Ranges.
Variable code : list ascii.

Lemma range_from_begin (last : nat) : Std.range code 0 last = firstn last code.
Proof. unfold Std.range. now rewrite Nat.sub_0_r. Qed.

Lemma range_to_end (first : nat) :
  Std.range code first (Std.end_ code) = skipn first code.
Proof.
  unfold Std.range, Std.end_. apply firstn_all2. rewrite length_skipn. lia.
Qed.

Lemma range_empty (first : nat) : Std.range code first first = [].
Proof. unfold Std.range. now rewrite Nat.sub_diag. Qed.

Lemma range_app (a b d : nat) :
  (a <= b <= d)%nat -> (b <= length code)%nat ->
  Std.range code a d = Std.range code a b ++ Std.range code b d.
Proof.
  intros Hab Hb. unfold Std.range.
  replace (skipn b code) with (skipn (b - a) (skipn a code))
    by (rewrite skipn_skipn; f_equal; lia).
  replace (d - a)%nat with ((b - a) + (d - b))%nat by lia.
  set (l := skipn a code).
  assert (Hl : (b - a <= length l)%nat) by (subst l; rewrite length_skipn; lia).
  rewrite <- (firstn_skipn (b - a) l) at 1.
  rewrite firstn_app, length_firstn, Nat.min_l by exact Hl.
  replace (b - a + (d - b) - (b - a))%nat with (d - b)%nat by lia.
  f_equal. apply firstn_all2. rewrite length_firstn. lia.
Qed.

Lemma range_length (a b : nat) :
  (a <= b <= length code)%nat -> length (Std.range code a b) = (b - a)%nat.
Proof.
  intros H. unfold Std.range. rewrite length_firstn, length_skipn. lia.
Qed.

Lemma count_range_app (a b d : nat) (c : ascii) :
  (a <= b <= d)%nat -> (b <= length code)%nat ->
  Std.count code a d c = Std.count code a b c + Std.count code b d c.
Proof.
  intros Hab Hb. unfold Std.count.
  rewrite (range_app a b d Hab Hb), count_occ_app. lia.
Qed.

Lemma count_nonneg (a b : nat) (c : ascii) : 0 <= Std.count code a b c.
Proof. unfold Std.count. lia. Qed.

Lemma count_le_length (a b : nat) (c : ascii) :
  Std.count code a b c <= Z.of_nat (length code).
Proof.
  unfold Std.count, Std.range.
  pose proof (count_occ_bound ascii_dec c (firstn (b - a) (skipn a code))) as H.
  rewrite length_firstn, length_skipn in H. lia.
Qed.
End Ranges.

(** What [find_if] returns, as a cut of the range it searches. *)
Lemma find_if_in_split (pred : ascii -> bool) (l : list ascii) (first : nat) :
  exists l1 l2,
    l = l1 ++ l2 /\
    Std.find_if_in l first pred = (first + length l1)%nat /\
    forallb (fun c => negb (pred c)) l1 = true /\
    (l2 = [] \/ exists c l2', l2 = c :: l2' /\ pred c = true).
Proof.
  revert first. induction l as [|c l IH]; intros first.
  - exists [], []. simpl. repeat split; auto with arith.
  - simpl. destruct (pred c) eqn:Hc.
    + exists [], (c :: l). simpl. repeat split; auto with arith.
      right. now exists c, l.
    + destruct (IH (S first)) as (l1 & l2 & -> & Hr & Hall & Hl2).
      exists (c :: l1), l2. simpl. rewrite Hc, Hr. repeat split; auto; lia.
Qed.

(** [find_if(first, end(code), pred)]. *)
Lemma find_if_to_end (code : list ascii) (first : nat) (pred : ascii -> bool) :
  (first <= length code)%nat ->
  let r := Std.find_if code first (Std.end_ code) pred in
  (first <= r <= length code)%nat /\
  forallb (fun c => negb (pred c)) (Std.range code first r) = true /\
  (r = length code \/ exists c rest, skipn r code = c :: rest /\ pred c = true).
Proof.
  intros Hfirst r. subst r. unfold Std.find_if. rewrite range_to_end.
  destruct (find_if_in_split pred (skipn first code) first)
    as (l1 & l2 & Hl & -> & Hall & Hl2).
  assert (Hlen : (length l1 + length l2 = length code - first)%nat)
    by (rewrite <- length_app, <- Hl, length_skipn; reflexivity).
  assert (Hskip : skipn (first + length l1) code = l2).
  { rewrite Nat.add_comm, <- skipn_skipn, Hl.
    rewrite skipn_app, Nat.sub_diag, skipn_all. reflexivity. }
  split; [lia|]. split.
  - unfold Std.range. rewrite Hl.
    replace (first + length l1 - first)%nat with (length l1) by lia.
    rewrite firstn_app, Nat.sub_diag, firstn_all. simpl.
    now rewrite app_nil_r.
  - destruct Hl2 as [-> | (c & l2' & -> & Hc)].
    + left. simpl in Hlen. lia.
    + right. exists c, l2'. now rewrite Hskip.
Qed.

Lemma find_if_not_to_end (code : list ascii) (first : nat) (pred : ascii -> bool) :
  (first <= length code)%nat ->
  let r := Std.find_if_not code first (Std.end_ code) pred in
  (first <= r <= length code)%nat /\
  forallb pred (Std.range code first r) = true /\
  (r = length code \/ exists c rest, skipn r code = c :: rest /\ pred c = false).
Proof.
  intros Hfirst r. subst r. unfold Std.find_if_not.
  destruct (find_if_to_end code first (fun c => negb (pred c)) Hfirst)
    as (Hr & Hall & Hstop).
  split; [exact Hr|]. split.
  - rewrite forallb_forall in *. intros c Hc. specialize (Hall c Hc).
    now rewrite negb_involutive in Hall.
  - destruct Hstop as [?|(c & rest & Hs & Hc)]; [now left|right].
    exists c, rest. split; [exact Hs|]. now apply negb_true_iff in Hc.
Qed.

(** The character at a position before the end. *)
Lemma range_cons (code : list ascii) (b e : nat) (c : ascii) (rest : list ascii) :
  skipn b code = c :: rest -> (b < e)%nat ->
  Std.range code b e = c :: Std.range code (S b) e.
Proof.
  intros Hs Hlt. unfold Std.range.
  assert (Hrest : skipn (S b) code = rest).
  { change (S b) with (1 + b)%nat. now rewrite <- skipn_skipn, Hs. }
  rewrite Hs, Hrest.
  replace (e - b)%nat with (S (e - S b)) by lia. reflexivity.
Qed.

(** ** The loop of the tokenizer *)

Lemma scan_loop_eq (fuel : nat) (code : list ascii) (isEndOfWord : ascii -> bool) (st : Scan) :
  scan_loop fuel code isEndOfWord st =
  if (beginWord st =? Std.end_ code)%nat then Some (words st)
  else match fuel with
       | O => None
       | S fuel' => scan_loop fuel' code isEndOfWord (scan_step code isEndOfWord st)
       end.
Proof. destruct fuel; reflexivity. Qed.

Section ScanLoop.
Variable code : list ascii.
Variable isEndOfWord : ascii -> bool.

(** An invariant that every turn keeps, each turn moving [beginWord]
    forward: the loop ends within the fuel that is left, in a state of the
    invariant. *)
Variable Inv : Scan -> Prop.
Hypothesis Inv_step : forall st,
  Inv st -> beginWord st <> Std.end_ code ->
  Inv (scan_step code isEndOfWord st) /\
  (beginWord st < beginWord (scan_step code isEndOfWord st) <= length code)%nat.

Lemma scan_loop_rule (fuel : nat) (st : Scan) :
  Inv st -> (beginWord st <= length code)%nat ->
  (length code - beginWord st <= fuel)%nat ->
  exists st', scan_loop fuel code isEndOfWord st = Some (words st') /\
              Inv st' /\ beginWord st' = Std.end_ code.
Proof.
  revert st. induction fuel as [|fuel IH]; intros st HI Hle Hfuel;
    rewrite scan_loop_eq; destruct (Nat.eqb_spec (beginWord st) (Std.end_ code)) as [He|Hne].
  - now exists st.
  - unfold Std.end_ in Hne. lia.
  - now exists st.
  - destruct (Inv_step st HI Hne) as (HI' & Hlt).
    apply IH; [exact HI'|lia|lia].
Qed.
End ScanLoop.

Lemma StronglySorted_snoc {A : Type} (R : A -> A -> Prop) (l : list A) (x : A) :
  StronglySorted R l -> Forall (fun a => R a x) l -> StronglySorted R (l ++ [x]).
Proof.
  induction 1 as [|a l Hs IH Ha]; intros Hx; simpl.
  - constructor; constructor.
  - inversion Hx; subst. constructor; [now apply IH|].
    apply Forall_app. split; [exact Ha|now constructor].
Qed.

Lemma isDelimiter_newline : isDelimiter newline = true.
Proof. reflexivity. Qed.

Lemma isEndOfWord_newline (how : HowToDelimitWords) : isEndOfWord_of how newline = true.
Proof. destruct how; reflexivity. Qed.

Section ScanInvariant.
Variable code : list ascii.
Variable isEndOfWord : ascii -> bool.
Hypothesis code_fits : representable code.
Hypothesis newline_ends : isEndOfWord newline = true.

Lemma scan_init_inv : ScanInv code (scan_init code).
Proof.
  destruct (find_if_not_to_end code 0 isDelimiter (Nat.le_0_l _)) as (Hr & _ & Hstop).
  constructor; simpl; auto; constructor.
Qed.

(** A word holds no newline. *)
Lemma word_no_newline (b e : nat) (c : ascii) (rest : list ascii) :
  skipn b code = c :: rest -> isDelimiter c = false -> (b < e)%nat ->
  forallb (fun x => negb (isEndOfWord x)) (Std.range code (S b) e) = true ->
  Std.count code b e newline = 0.
Proof.
  intros Hs Hc Hlt Hall. unfold Std.count.
  rewrite (range_cons code b e c rest Hs Hlt).
  replace (count_occ ascii_dec (c :: Std.range code (S b) e) newline) with 0%nat; [reflexivity|].
  symmetry. apply count_occ_not_In. intros [->|Hin].
  - rewrite isDelimiter_newline in Hc. discriminate.
  - rewrite forallb_forall in Hall. specialize (Hall _ Hin).
    rewrite newline_ends in Hall. discriminate.
Qed.

Lemma scan_step_inv (st : Scan) :
  ScanInv code st -> beginWord st <> Std.end_ code ->
  ScanInv code (scan_step code isEndOfWord st) /\
  (beginWord st < beginWord (scan_step code isEndOfWord st) <= length code)%nat.
Proof.
  intros [Hord Hline Hbeg Hcnt Hlines Hsorted] Hne. unfold Std.end_ in Hne.
  destruct Hbeg as [Hb|(c & rest & Hs & Hc)]; [contradiction|].
  assert (Hlt : (beginWord st < length code)%nat) by lia.
  destruct (find_if_to_end code (Std.next (beginWord st)) isEndOfWord Hlt)
    as (He' & Hword & _).
  set (e' := Std.find_if code (Std.next (beginWord st)) (Std.end_ code) isEndOfWord) in *.
  destruct (find_if_not_to_end code e' isDelimiter (proj2 He')) as (Hb' & _ & Hstop).
  set (b' := Std.find_if_not code e' (Std.end_ code) isDelimiter) in *.
  unfold Std.next in *.
  assert (Hline' : Size.wrap (line st + Std.count code (endWord st) (beginWord st) newline)
                   = Std.count code 0 (beginWord st) newline).
  { rewrite Hline, <- count_range_app by lia.
    apply wrap_small. pose proof (count_nonneg code 0 (beginWord st) newline).
    pose proof (count_le_length code 0 (beginWord st) newline).
    unfold representable in code_fits. size_consts. lia. }
  assert (Hgap : 0 <= Std.count code (endWord st) (beginWord st) newline)
    by apply count_nonneg.
  assert (Hup : line st <= Std.count code 0 (beginWord st) newline).
  { rewrite Hline, (count_range_app code 0 (endWord st) (beginWord st)) by lia. lia. }
  split; [|change (beginWord (scan_step code isEndOfWord st)) with b'; lia].
  change (scan_step code isEndOfWord st)
    with (mkScan
            (words st ++
             [mkWordData (Std.range code (beginWord st) e')
                (Size.wrap (line st + Std.count code (endWord st) (beginWord st) newline))])
            e' b'
            (Size.wrap (line st + Std.count code (endWord st) (beginWord st) newline))).
  rewrite Hline'.
  constructor; cbn [words endWord beginWord line lineNumber].
  - lia.
  - rewrite (count_range_app code 0 (beginWord st) e') by lia.
    rewrite (word_no_newline (beginWord st) e' c rest Hs Hc) by (exact Hword || lia). lia.
  - exact Hstop.
  - rewrite length_app. simpl. lia.
  - apply Forall_app. split.
    + eapply Forall_impl; [|exact Hlines]. simpl. intros w Hw. lia.
    + constructor; [|constructor]. simpl.
      pose proof (count_nonneg code 0 (beginWord st) newline). lia.
  - apply StronglySorted_snoc; [exact Hsorted|].
    eapply Forall_impl; [|exact Hlines]. simpl. intros w Hw. lia.
Qed.

(** The tokenizer returns, and the invariant holds of what it returns. *)
Lemma getWordDataFromCode_pred_inv :
  exists st, getWordDataFromCode_pred code isEndOfWord = Some (words st) /\
             ScanInv code st /\ beginWord st = Std.end_ code.
Proof.
  unfold getWordDataFromCode_pred.
  apply (scan_loop_rule code isEndOfWord (ScanInv code) scan_step_inv).
  - exact scan_init_inv.
  - apply scan_init_inv.
  - lia.
Qed.
End ScanInvariant.

(** ** The order of strings *)

Lemma string_lt_irrefl (a : list ascii) : string_lt a a = false.
Proof.
  induction a as [|x a IH]; simpl; [reflexivity|].
  now rewrite Z.ltb_irrefl.
Qed.

Lemma string_lt_trans (a b c : list ascii) :
  string_lt a b = true -> string_lt b c = true -> string_lt a c = true.
Proof.
  revert b c. induction a as [|x a IH]; intros [|y b] [|z c]; simpl; try discriminate; auto.
  destruct (Z.ltb_spec (code_of x) (code_of y)), (Z.ltb_spec (code_of y) (code_of x)),
    (Z.ltb_spec (code_of y) (code_of z)), (Z.ltb_spec (code_of z) (code_of y)),
    (Z.ltb_spec (code_of x) (code_of z)), (Z.ltb_spec (code_of z) (code_of x));
    try discriminate; try lia; auto.
  apply IH.
Qed.

Lemma string_lt_le (a b : list ascii) : string_lt a b = true -> string_le a b = true.
Proof.
  intros H. unfold string_le. destruct (string_lt b a) eqn:Hba; [|reflexivity].
  pose proof (string_lt_trans a b a H Hba) as Haa.
  rewrite string_lt_irrefl in Haa. discriminate.
Qed.

Lemma code_of_inj (x y : ascii) : code_of x = code_of y -> x = y.
Proof.
  unfold code_of. intros H. apply N2Z.inj in H.
  rewrite <- (ascii_N_embedding x), <- (ascii_N_embedding y). now rewrite H.
Qed.

Lemma string_lt_total (a b : list ascii) :
  string_lt a b = false -> string_lt b a = false -> a = b.
Proof.
  revert b. induction a as [|x a IH]; intros [|y b]; simpl; try discriminate; auto.
  destruct (Z.ltb_spec (code_of x) (code_of y)); [discriminate|].
  destruct (Z.ltb_spec (code_of y) (code_of x)); [discriminate|].
  intros Hab Hba. assert (Hxy : x = y) by (apply code_of_inj; lia).
  subst y. f_equal. now apply IH.
Qed.

Lemma string_lt_asym (a b : list ascii) : string_lt a b = true -> string_lt b a = false.
Proof.
  intros Hab. destruct (string_lt b a) eqn:Hba; [|reflexivity].
  pose proof (string_lt_trans a b a Hab Hba) as H.
  rewrite string_lt_irrefl in H. discriminate.
Qed.

(** ** The statistics of one word *)

Lemma record_first (N : Z) (w : WordData) :
  0 <= lineNumber w < N -> StatsInv N (record_occurrence N w WordStats_new).
Proof.
  intros Hw. constructor; cbn; lia.
Qed.

Lemma record_next (N : Z) (w : WordData) (s : WordStats) :
  0 <= lineNumber w < N -> StatsInv N s -> nbOccurrences s + 1 < Size.modulus ->
  StatsInv N (record_occurrence N w s) /\
  nbOccurrences (record_occurrence N w s) = nbOccurrences s + 1.
Proof.
  intros Hw [Ht Hs Hl Ho Hh H1] Hfit.
  unfold record_occurrence, addOneOccurrence, setTotalNumberOfLines, nbOccurrences in *.
  cbn [nbOccurrences_ totalNumberOfLines_ lowestOccurringLine_ highestOccurringLine_].
  rewrite wrap_small by lia.
  destruct (Z.eqb_spec (nbOccurrences_ s + 1) 1) as [He|He].
  - lia.
  - split; [|reflexivity]. constructor; cbn; lia.
Qed.

(** ** The statistics map *)

Lemma total_occurrences_perm (l l' : list (list ascii * WordStats)) :
  Permutation l l' -> total_occurrences l = total_occurrences l'.
Proof.
  induction 1; simpl; lia.
Qed.

Lemma total_occurrences_ge (N : Z) (m : StdMap.t) :
  Forall (fun e => StatsInv N (snd e)) m ->
  0 <= total_occurrences m /\
  Forall (fun e => nbOccurrences (snd e) <= total_occurrences m) m.
Proof.
  induction 1 as [|e m He Hm (IH0 & IH)]; simpl.
  - split; [lia|constructor].
  - pose proof (stats_seen N _ He). split; [lia|].
    constructor; [lia|]. eapply Forall_impl; [|exact IH]. simpl. intros. lia.
Qed.

Lemma total_occurrences_cons (e : list ascii * WordStats) (l : list (list ascii * WordStats)) :
  total_occurrences (e :: l) = nbOccurrences (snd e) + total_occurrences l.
Proof. reflexivity. Qed.

Lemma record_first_count (N : Z) (w : WordData) :
  nbOccurrences (record_occurrence N w WordStats_new) = 1.
Proof. reflexivity. Qed.

Lemma update_ref_inv (N : Z) (w : WordData) (m : StdMap.t) :
  0 <= lineNumber w < N ->
  Forall (fun e => StatsInv N (snd e)) m ->
  total_occurrences m + 1 < Size.modulus ->
  let m' := StdMap.update_ref (word w) (record_occurrence N w) m in
  Forall (fun e => StatsInv N (snd e)) m' /\
  total_occurrences m' = total_occurrences m + 1.
Proof.
  intros Hw Hm. induction Hm as [|[k v] m Hv Hm IH]; intros Hfit; simpl StdMap.update_ref.
  - split.
    + constructor; [|constructor]. now apply record_first.
    + reflexivity.
  - pose proof (total_occurrences_ge N m Hm) as (Hpos & _).
    pose proof (stats_seen N _ Hv) as Hseen.
    rewrite total_occurrences_cons in Hfit |- *. simpl snd in *.
    destruct (string_lt (word w) k).
    + split.
      * constructor; [now apply record_first|]. now constructor.
      * rewrite !total_occurrences_cons. simpl snd. rewrite record_first_count. lia.
    + destruct (string_lt k (word w)).
      * destruct IH as (IH1 & IH2); [lia|]. split.
        -- now constructor.
        -- rewrite total_occurrences_cons, IH2. simpl snd. lia.
      * destruct (record_next N w v Hw Hv) as (Hv' & Hocc); [lia|]. split.
        -- now constructor.
        -- rewrite total_occurrences_cons. simpl snd. rewrite Hocc. lia.
Qed.

Lemma wordStats_fold_inv (N : Z) (wordData : list WordData) (m : StdMap.t) :
  Forall (fun w => 0 <= lineNumber w < N) wordData ->
  Forall (fun e => StatsInv N (snd e)) m ->
  total_occurrences m + Z.of_nat (length wordData) < Size.modulus ->
  let m' := fold_left (fun acc w => StdMap.update_ref (word w) (record_occurrence N w) acc)
              wordData m in
  Forall (fun e => StatsInv N (snd e)) m' /\
  total_occurrences m' = total_occurrences m + Z.of_nat (length wordData).
Proof.
  intros Hws. revert m. induction Hws as [|w ws Hw Hws IH]; intros m Hm Hfit; simpl.
  - split; [exact Hm|lia].
  - simpl length in Hfit.
    destruct (update_ref_inv N w m Hw Hm) as (Hm' & Htot); [lia|].
    destruct (IH _ Hm') as (IH1 & IH2); [lia|].
    split; [exact IH1|]. rewrite IH2, Htot. lia.
Qed.

Lemma wordStats_inv (N : Z) (wordData : list WordData) :
  Forall (fun w => 0 <= lineNumber w < N) wordData ->
  Z.of_nat (length wordData) < Size.modulus ->
  Forall (fun e => StatsInv N (snd e)) (wordStats wordData N) /\
  total_occurrences (wordStats wordData N) = Z.of_nat (length wordData).
Proof.
  intros Hws Hfit.
  apply (wordStats_fold_inv N wordData StdMap.empty Hws); [constructor|exact Hfit].
Qed.

Lemma update_ref_keys (P : list ascii -> Prop) (key : list ascii)
    (f : WordStats -> WordStats) (m : StdMap.t) :
  P key -> Forall (fun e => P (fst e)) m ->
  Forall (fun e => P (fst e)) (StdMap.update_ref key f m).
Proof.
  intros Hkey. induction 1 as [|[k v] m Hk Hm IH]; simpl.
  - now repeat constructor.
  - destruct (string_lt key k); [now repeat constructor|].
    destruct (string_lt k key); now constructor.
Qed.

Lemma update_ref_ascending (key : list ascii) (f : WordStats -> WordStats) (m : StdMap.t) :
  keys_ascending m -> keys_ascending (StdMap.update_ref key f m).
Proof.
  unfold keys_ascending. induction 1 as [|[k v] m Hm IH Hk]; simpl.
  - repeat constructor.
  - destruct (string_lt key k) eqn:H1.
    + constructor; [now constructor|]. constructor; [exact H1|].
      eapply Forall_impl; [|exact Hk]. simpl. intros e He.
      now apply (string_lt_trans key k).
    + destruct (string_lt k key) eqn:H2.
      * constructor; [exact IH|].
        now apply (update_ref_keys (fun x => string_lt k x = true)).
      * now constructor.
Qed.

Lemma wordStats_ascending (wordData : list WordData) (N : Z) :
  keys_ascending (wordStats wordData N).
Proof.
  unfold wordStats.
  assert (H : keys_ascending StdMap.empty) by constructor.
  revert H. generalize StdMap.empty.
  induction wordData as [|w ws IH]; intros m Hm; simpl; [exact Hm|].
  apply IH. now apply update_ref_ascending.
Qed.

(** ** The number of lines *)

Lemma count_whole (code : list ascii) (c : ascii) :
  Std.count code 0 (Std.end_ code) c = Z.of_nat (count_occ ascii_dec code c).
Proof.
  unfold Std.count, Std.end_. now rewrite range_from_begin, firstn_all.
Qed.

Lemma numberOfLines_spec (code : list ascii) :
  representable code ->
  numberOfLines code = Z.of_nat (count_occ ascii_dec code newline) + 1.
Proof.
  intros Hfit. unfold numberOfLines. rewrite count_whole.
  apply wrap_small.
  pose proof (count_occ_bound ascii_dec newline code).
  unfold representable in Hfit. size_consts. lia.
Qed.

(** C7: the number of lines of a text is the number of its newline
    characters plus one; the empty text has 1 line, "a\nb" has 2 and
    "a\nb\n" has 3. *)
Theorem numberOfLines_counts_newlines :
  (forall code, representable code ->
     numberOfLines code = Z.of_nat (count_occ ascii_dec code newline) + 1) /\
  numberOfLines (str "") = 1 /\
  numberOfLines text_a_b = 2 /\
  numberOfLines text_a_b_nl = 3.
Proof.
  split; [exact numberOfLines_spec|]. repeat split; reflexivity.
Qed.

Lemma numberOfLines_counts_newlines_witness :
  representable text_a_b_nl /\
  numberOfLines text_a_b_nl = Z.of_nat (count_occ ascii_dec text_a_b_nl newline) + 1.
Proof.
  assert (Hfit : representable text_a_b_nl) by (vm_compute; reflexivity).
  split; [exact Hfit|].
  exact (proj1 numberOfLines_counts_newlines text_a_b_nl Hfit).
Defined.

(** ** What the tokenizer returns *)

Lemma tokenizer_lines (how : HowToDelimitWords) (code : list ascii) :
  representable code ->
  exists words,
    getWordDataFromCode how code = Some words /\
    StronglySorted (fun a b => lineNumber a <= lineNumber b) words /\
    Forall (fun w => 0 <= lineNumber w < numberOfLines code) words /\
    (length words <= length code)%nat.
Proof.
  intros Hfit.
  destruct (getWordDataFromCode_pred_inv code (isEndOfWord_of how) Hfit
              (isEndOfWord_newline how)) as (st & Hst & [Hord Hline _ Hcnt Hlines Hsorted] & Hend).
  exists (words st). split; [exact Hst|]. split; [exact Hsorted|]. split; [|lia].
  rewrite (numberOfLines_spec code Hfit), <- count_whole.
  eapply Forall_impl; [|exact Hlines]. simpl. intros w Hw.
  assert (Hn : (endWord st <= Std.end_ code <= Std.end_ code)%nat)
    by (unfold Std.end_; lia).
  rewrite (count_range_app code 0 (endWord st) (Std.end_ code) newline) by (unfold Std.end_; lia).
  pose proof (count_nonneg code (endWord st) (Std.end_ code) newline). lia.
Qed.

(** C10: in both modes the line numbers of the occurrences never decrease
    along the sequence, and each is below the number of lines of the text. *)
Theorem tokenizer_lines_monotone_bounded (how : HowToDelimitWords) (code : list ascii) :
  representable code ->
  exists words,
    getWordDataFromCode how code = Some words /\
    StronglySorted (fun a b => lineNumber a <= lineNumber b) words /\
    Forall (fun w => lineNumber w < numberOfLines code) words.
Proof.
  intros Hfit.
  destruct (tokenizer_lines how code Hfit) as (ws & Hws & Hsorted & Hlines & _).
  exists ws. split; [exact Hws|]. split; [exact Hsorted|].
  eapply Forall_impl; [|exact Hlines]. simpl. intros w Hw. lia.
Qed.

Lemma representable_cat_dog_cat : representable text_cat_dog_cat.
Proof. vm_compute. reflexivity. Defined.

Lemma tokenizer_lines_monotone_bounded_witness :
  exists words,
    getWordDataFromCode WordsInCamelCase text_cat_dog_cat = Some words /\
    StronglySorted (fun a b => lineNumber a <= lineNumber b) words /\
    Forall (fun w => lineNumber w < numberOfLines text_cat_dog_cat) words.
Proof.
  exact (tokenizer_lines_monotone_bounded WordsInCamelCase text_cat_dog_cat
           representable_cat_dog_cat).
Defined.

(** C4: the occurrences of "fooBar baz_qux" are foo, Bar and baz_qux in
    camel-case mode, fooBar and baz_qux in entire-words mode, all at line 0. *)
Theorem tokenize_fooBar :
  getWordDataFromCode WordsInCamelCase text_fooBar =
    Some [mkWordData (str "foo") 0; mkWordData (str "Bar") 0; mkWordData (str "baz_qux") 0] /\
  getWordDataFromCode EntireWords text_fooBar =
    Some [mkWordData (str "fooBar") 0; mkWordData (str "baz_qux") 0].
Proof. split; reflexivity. Qed.

(** ** The comparison operators *)

Lemma rank_comp_spec (p1 p2 : list ascii * WordStats) :
  rank_comp p1 p2 = (nbOccurrences (snd p2) <? nbOccurrences (snd p1)).
Proof.
  unfold rank_comp, Comparable.gt, Comparable.le, less, WordStats_less.
  apply negb_involutive.
Qed.

(** C9: on [WordStats] every operator derived from [<] compares the
    occurrence counts and nothing else: [a > b] is [b < a], [a == b] says
    that neither is below the other, and two statistics of equal count are
    equal for [==] whatever their lines and totals. *)
Theorem WordStats_operators_compare_counts (a b : WordStats) :
  less a b = (nbOccurrences a <? nbOccurrences b) /\
  Comparable.gt a b = less b a /\
  Comparable.gt a b = (nbOccurrences b <? nbOccurrences a) /\
  Comparable.le a b = (nbOccurrences a <=? nbOccurrences b) /\
  Comparable.ge a b = (nbOccurrences b <=? nbOccurrences a) /\
  Comparable.eq a b = negb (less a b) && negb (less b a) /\
  Comparable.eq a b = (nbOccurrences a =? nbOccurrences b) /\
  Comparable.ne a b = negb (nbOccurrences a =? nbOccurrences b) /\
  Comparable.eq (mkWordStats 4 2 0 2) (mkWordStats 9 2 5 5) = true /\
  span (mkWordStats 4 2 0 2) <> span (mkWordStats 9 2 5 5).
Proof.
  unfold Comparable.gt, Comparable.le, Comparable.ge, Comparable.ne, Comparable.eq,
    less, WordStats_less.
  repeat split; try reflexivity; try discriminate.
  - apply negb_involutive.
  - rewrite negb_involutive. reflexivity.
  - rewrite Z.leb_antisym. reflexivity.
  - rewrite Z.leb_antisym. reflexivity.
  - destruct (Z.ltb_spec (nbOccurrences a) (nbOccurrences b)),
      (Z.ltb_spec (nbOccurrences b) (nbOccurrences a)),
      (Z.eqb_spec (nbOccurrences a) (nbOccurrences b)); simpl; try reflexivity; lia.
  - destruct (Z.ltb_spec (nbOccurrences a) (nbOccurrences b)),
      (Z.ltb_spec (nbOccurrences b) (nbOccurrences a)),
      (Z.eqb_spec (nbOccurrences a) (nbOccurrences b)); simpl; try reflexivity; lia.
Qed.

(** ** Sorting *)

Lemma StronglySorted_equiv {A : Type} (R R' : A -> A -> Prop) (l : list A) :
  (forall a b, R a b -> R' a b) -> StronglySorted R l -> StronglySorted R' l.
Proof.
  intros HR. induction 1 as [|a l Hl IH Ha]; constructor; [exact IH|].
  eapply Forall_impl; [|exact Ha]. apply HR.
Qed.

Lemma sorted_by_rank_descending (l : WordCount) : sorted_by rank_comp l <-> descending l.
Proof.
  unfold sorted_by, descending. split; apply StronglySorted_equiv; intros a b;
    rewrite rank_comp_spec; destruct (Z.ltb_spec (nbOccurrences (snd a)) (nbOccurrences (snd b)));
    intros; try discriminate; try reflexivity; lia.
Qed.

Section InsertionSort.
Context {A : Type} (comp : A -> A -> bool).

Lemma insert_sorted_perm (x : A) (l : list A) :
  Permutation (x :: l) (insert_sorted comp x l).
Proof.
  induction l as [|y l IH]; simpl; [reflexivity|].
  destruct (comp x y); [reflexivity|].
  rewrite perm_swap. now constructor.
Qed.

Lemma fold_insert_perm (l acc : list A) :
  Permutation (acc ++ l) (fold_left (fun acc x => insert_sorted comp x acc) l acc).
Proof.
  revert acc. induction l as [|x l IH]; intros acc; simpl.
  - now rewrite app_nil_r.
  - rewrite <- IH, <- Permutation_middle.
    apply (Permutation_app_tail l (insert_sorted_perm x acc)).
Qed.

Lemma insertion_sort_perm (l : list A) : Permutation l (insertion_sort comp l).
Proof. exact (fold_insert_perm l []). Qed.
End InsertionSort.

Lemma insert_descending (x : list ascii * WordStats) (l : WordCount) :
  descending l -> descending (insert_sorted rank_comp x l).
Proof.
  unfold descending. induction 1 as [|y l Hl IH Hy]; simpl.
  - repeat constructor.
  - rewrite rank_comp_spec.
    destruct (Z.ltb_spec (nbOccurrences (snd y)) (nbOccurrences (snd x))) as [Hlt|Hge].
    + constructor; [now constructor|]. constructor; [lia|].
      eapply Forall_impl; [|exact Hy]. simpl. intros e He. lia.
    + constructor; [exact IH|].
      apply (Permutation_Forall (insert_sorted_perm rank_comp x l)).
      now constructor.
Qed.

Lemma insertion_sort_descending (l : WordCount) : descending (insertion_sort rank_comp l).
Proof.
  unfold insertion_sort.
  assert (H : descending []) by constructor.
  revert H. generalize (@nil (list ascii * WordStats)).
  induction l as [|x l IH]; intros acc Hacc; simpl; [exact Hacc|].
  apply IH. now apply insert_descending.
Qed.

(** Insertion sort meets the contract of [std::sort]. *)
Lemma insertion_sort_meets_contract (l : WordCount) :
  std_sort rank_comp l (insertion_sort rank_comp l).
Proof.
  split; [apply insertion_sort_perm|].
  apply sorted_by_rank_descending, insertion_sort_descending.
Qed.

Lemma getWordCount_insertion_sound (code : list ascii) (out : WordCount) :
  getWordCount_insertion code = Some out -> getWordCount code out.
Proof.
  unfold getWordCount_insertion, getWordCount.
  destruct (getWordDataFromCode WordsInCamelCase code) as [ws|]; [|discriminate].
  intros [= <-]. exists ws. split; [reflexivity|]. apply insertion_sort_meets_contract.
Qed.

(** The scan ends on every text: the ranking has a result. *)
Lemma getWordDataFromCode_total (how : HowToDelimitWords) (code : list ascii) :
  exists words, getWordDataFromCode how code = Some words.
Proof.
  unfold getWordDataFromCode, getWordDataFromCode_pred.
  assert (Hstep : forall st,
            (beginWord st <= length code)%nat -> beginWord st <> Std.end_ code ->
            (beginWord (scan_step code (isEndOfWord_of how) st) <= length code)%nat /\
            (beginWord st < beginWord (scan_step code (isEndOfWord_of how) st)
               <= length code)%nat).
  { intros st Hb Hne. unfold Std.end_ in Hne.
    assert (Hlt : (beginWord st < length code)%nat) by lia.
    destruct (find_if_to_end code (Std.next (beginWord st)) (isEndOfWord_of how) Hlt)
      as (He' & _).
    destruct (find_if_not_to_end code _ isDelimiter (proj2 He')) as (Hb' & _).
    unfold scan_step, Std.next in *. simpl. lia. }
  assert (Hinit : (beginWord (scan_init code) <= length code)%nat)
    by apply (find_if_not_to_end code 0 isDelimiter (Nat.le_0_l _)).
  destruct (scan_loop_rule code (isEndOfWord_of how) _ Hstep (length code)
              (scan_init code) Hinit Hinit) as (st & Hst & _); [lia|].
  now exists (words st).
Qed.

Lemma getWordCount_total (code : list ascii) : exists out, getWordCount code out.
Proof.
  destruct (getWordDataFromCode_total WordsInCamelCase code) as (ws & Hws).
  exists (insertion_sort rank_comp (wordStats ws (numberOfLines code))).
  apply getWordCount_insertion_sound. unfold getWordCount_insertion. now rewrite Hws.
Qed.

(** ** The empty text *)

(** C8: the empty text is a valid input: in both modes the tokenizer
    returns the empty sequence, its statistics map is empty, the only
    ranking of the empty map is the empty sequence, and the whole pipeline
    returns it. *)
Theorem empty_text_is_valid :
  getWordDataFromCode EntireWords [] = Some [] /\
  getWordDataFromCode WordsInCamelCase [] = Some [] /\
  (forall n, wordStats [] n = StdMap.empty) /\
  (forall out, std_sort rank_comp StdMap.empty out <-> out = []) /\
  getWordCount_insertion [] = Some [] /\
  (forall out, getWordCount [] out <-> out = []).
Proof.
  assert (Hsort : forall out, std_sort rank_comp StdMap.empty out <-> out = []).
  { intros out. split.
    - intros (Hperm & _). now apply Permutation_nil.
    - intros ->. split; constructor. }
  split; [reflexivity|]. split; [reflexivity|]. split; [reflexivity|].
  split; [exact Hsort|]. split; [reflexivity|].
  intros out. split.
  - intros (ws & Hws & Hout). injection Hws as <-. now apply Hsort.
  - intros ->. now apply getWordCount_insertion_sound.
Qed.

(** ** The ranking *)

Lemma StronglySorted_filter {A : Type} (R : A -> A -> Prop) (f : A -> bool) (l : list A) :
  StronglySorted R l -> StronglySorted R (filter f l).
Proof.
  induction 1 as [|a l Hl IH Ha]; simpl; [constructor|].
  destruct (f a); [|exact IH]. constructor; [exact IH|].
  rewrite Forall_forall in *. intros x Hx. apply Ha. now apply filter_In in Hx.
Qed.

Lemma StronglySorted_adjacent {A : Type} (R : A -> A -> Prop) (pre post : list A) (a b : A) :
  StronglySorted R (pre ++ a :: b :: post) -> R a b.
Proof.
  induction pre as [|x pre IH]; simpl; intros H; inversion H as [|? ? Hs Hf]; subst.
  - now inversion Hf.
  - now apply IH.
Qed.

Lemma keys_ascending_NoDup (m : StdMap.t) : keys_ascending m -> NoDup (map fst m).
Proof.
  induction 1 as [|e m Hm IH He]; simpl; constructor; [|exact IH].
  intros Hin. apply in_map_iff in Hin. destruct Hin as (e' & Heq & Hin).
  rewrite Forall_forall in He. specialize (He e' Hin).
  rewrite Heq, string_lt_irrefl in He. discriminate.
Qed.

Lemma of_count_adjacent (pre post : WordCount) (a b : list ascii * WordStats) :
  nbOccurrences (snd a) = nbOccurrences (snd b) ->
  of_count (nbOccurrences (snd a)) (pre ++ a :: b :: post) =
  of_count (nbOccurrences (snd a)) pre ++ a :: b :: of_count (nbOccurrences (snd a)) post.
Proof.
  intros Hab. unfold of_count. rewrite filter_app. simpl.
  rewrite <- Hab, Z.eqb_refl. reflexivity.
Qed.

(** Ties left in the order of the map are in the order of the words. *)
Lemma kept_ties_lexicographic (wordCount : StdMap.t) (out : WordCount) :
  keys_ascending wordCount -> keeps_ties wordCount out -> ties_lexicographic out.
Proof.
  intros Hasc Hkeep pre a b post -> Hab.
  apply string_lt_le.
  specialize (Hkeep (nbOccurrences (snd a))).
  rewrite (of_count_adjacent pre post a b Hab) in Hkeep.
  pose proof (StronglySorted_filter _ (fun e => nbOccurrences (snd e) =? nbOccurrences (snd a))
                _ Hasc) as Hs.
  fold (of_count (nbOccurrences (snd a)) wordCount) in Hs. rewrite <- Hkeep in Hs.
  exact (StronglySorted_adjacent _ _ _ _ _ Hs).
Qed.

(** ** A sort that keeps ties *)

Lemma of_count_below (c : Z) (l : WordCount) :
  Forall (fun e => nbOccurrences (snd e) < c) l -> of_count c l = [].
Proof.
  unfold of_count. induction 1 as [|e l He Hl IH]; simpl; [reflexivity|].
  destruct (Z.eqb_spec (nbOccurrences (snd e)) c); [lia|exact IH].
Qed.

Lemma of_count_cons (c : Z) (x : list ascii * WordStats) (l : WordCount) :
  of_count c (x :: l) = of_count c [x] ++ of_count c l.
Proof.
  unfold of_count. simpl. destruct (nbOccurrences (snd x) =? c); reflexivity.
Qed.

Lemma insert_of_count (c : Z) (x : list ascii * WordStats) (l : WordCount) :
  descending l ->
  of_count c (insert_sorted rank_comp x l) = of_count c l ++ of_count c [x].
Proof.
  unfold descending. induction 1 as [|y l Hl IH Hy]; simpl insert_sorted.
  - reflexivity.
  - rewrite rank_comp_spec.
    destruct (Z.ltb_spec (nbOccurrences (snd y)) (nbOccurrences (snd x))) as [Hlt|Hge].
    + rewrite (of_count_cons c x (y :: l)).
      destruct (Z.eq_dec (nbOccurrences (snd x)) c) as [Hc|Hc].
      * rewrite (of_count_below c (y :: l)); [now rewrite app_nil_r|].
        constructor; [lia|]. eapply Forall_impl; [|exact Hy]. simpl. intros e He. lia.
      * assert (Hx : of_count c [x] = []).
        { unfold of_count. simpl.
          destruct (Z.eqb_spec (nbOccurrences (snd x)) c); [contradiction|reflexivity]. }
        rewrite Hx. now rewrite app_nil_r.
    + rewrite (of_count_cons c y (insert_sorted rank_comp x l)), IH.
      rewrite (of_count_cons c y l). now rewrite app_assoc.
Qed.

Lemma fold_insert_of_count (c : Z) (l acc : WordCount) :
  descending acc ->
  of_count c (fold_left (fun acc x => insert_sorted rank_comp x acc) l acc) =
  of_count c acc ++ of_count c l.
Proof.
  revert acc. induction l as [|x l IH]; intros acc Hacc; simpl fold_left.
  - unfold of_count. simpl. now rewrite app_nil_r.
  - rewrite IH by now apply insert_descending.
    rewrite insert_of_count by exact Hacc.
    rewrite (of_count_cons c x l). now rewrite app_assoc.
Qed.

Lemma insertion_sort_keeps_ties (l : WordCount) : keeps_ties l (insertion_sort rank_comp l).
Proof.
  intros c. unfold insertion_sort. rewrite fold_insert_of_count by constructor.
  reflexivity.
Qed.

(** With a sort that keeps ties the ranking has its ties in the order of
    the words, on every text. *)
Lemma getWordCount_insertion_ties (code : list ascii) (out : WordCount) :
  getWordCount_insertion code = Some out ->
  getWordCount code out /\ descending out /\ ties_lexicographic out.
Proof.
  intros Hout. pose proof (getWordCount_insertion_sound code out Hout) as Hrank.
  split; [exact Hrank|].
  unfold getWordCount_insertion in Hout.
  destruct (getWordDataFromCode WordsInCamelCase code) as [ws|]; [|discriminate].
  injection Hout as <-. split; [apply insertion_sort_descending|].
  apply (kept_ties_lexicographic (wordStats ws (numberOfLines code))).
  - apply wordStats_ascending.
  - apply insertion_sort_keeps_ties.
Qed.

Lemma Permutation_filter' {A : Type} (f : A -> bool) (l l' : list A) :
  Permutation l l' -> Permutation (filter f l) (filter f l').
Proof.
  intros Hp. induction Hp as [|x l l' Hp IH|x y l|l l' l'' H1 IH1 H2 IH2].
  - apply perm_nil.
  - simpl. case (f x); [apply perm_skip|]; exact IH.
  - simpl. case (f x); case (f y); try apply Permutation_refl. apply perm_swap.
  - exact (Permutation_trans IH1 IH2).
Qed.

Lemma ascending_ext (m m' : StdMap.t) :
  keys_ascending m -> keys_ascending m' ->
  (forall e, In e m <-> In e m') -> m = m'.
Proof.
  unfold keys_ascending. intros Hm. revert m'.
  induction Hm as [|a m Hm IH Ha]; intros m' Hm' Hext.
  - destruct m' as [|b m']; [reflexivity|].
    exfalso. apply (proj2 (Hext b)). now left.
  - destruct Hm' as [|b m' Hm' Hb].
    { exfalso. apply (proj1 (Hext a)). now left. }
    rewrite Forall_forall in Ha, Hb.
    assert (Hab : a = b).
    { destruct (proj1 (Hext a) (or_introl eq_refl)) as [E|Hin]; [now symmetry|].
      destruct (proj2 (Hext b) (or_introl eq_refl)) as [E|Hin']; [exact E|].
      pose proof (Hb _ Hin) as H1. pose proof (Ha _ Hin') as H2.
      rewrite (string_lt_asym _ _ H1) in H2. discriminate. }
    subst b. f_equal. apply IH; [exact Hm'|].
    intros e. split; intros Hin.
    + destruct (proj1 (Hext e) (or_intror Hin)) as [<-|H]; [|exact H].
      pose proof (Ha _ Hin) as H. rewrite string_lt_irrefl in H. discriminate.
    + destruct (proj2 (Hext e) (or_intror Hin)) as [<-|H]; [|exact H].
      pose proof (Hb _ Hin) as H. rewrite string_lt_irrefl in H. discriminate.
Qed.

Lemma ties_lexicographic_tail (a : list ascii * WordStats) (l : WordCount) :
  ties_lexicographic (a :: l) -> ties_lexicographic l.
Proof.
  intros H pre x y post E Hxy. apply (H (a :: pre) x y post); [|exact Hxy].
  now rewrite E.
Qed.

(** In a ranking with lexicographic ties the entries of one count come in
    ascending order of their words. *)
Lemma lexicographic_ties_ascending (c : Z) (l : WordCount) :
  descending l -> NoDup (map fst l) -> ties_lexicographic l ->
  keys_ascending (of_count c l).
Proof.
  intros Hdesc Hnodup Hties. unfold keys_ascending.
  apply Sorted_StronglySorted.
  { intros x y z Hxy Hyz. exact (string_lt_trans _ _ _ Hxy Hyz). }
  unfold descending in Hdesc.
  induction Hdesc as [|a l Hl IH Ha]; [constructor|].
  inversion Hnodup as [|? ? Hnotin Hnodup']; subst.
  specialize (IH Hnodup' (ties_lexicographic_tail a l Hties)).
  rewrite of_count_cons.
  unfold of_count at 1. simpl filter.
  destruct (Z.eqb_spec (nbOccurrences (snd a)) c) as [Hc|Hc]; [|exact IH].
  subst c. simpl app. constructor; [exact IH|].
  destruct l as [|b l']; [constructor|].
  inversion Ha as [|? ? Hb _]; subst.
  inversion Hl as [|? ? _ Hl']; subst.
  destruct (Z.eq_dec (nbOccurrences (snd b)) (nbOccurrences (snd a))) as [Hba|Hba].
  - rewrite (of_count_cons (nbOccurrences (snd a)) b l').
    unfold of_count at 1. simpl filter. rewrite Hba, Z.eqb_refl. simpl app.
    constructor.
    pose proof (Hties [] a b l' eq_refl (eq_sym Hba)) as Hle.
    unfold string_le in Hle. apply negb_true_iff in Hle.
    destruct (string_lt (fst a) (fst b)) eqn:Hab; [reflexivity|exfalso].
    apply Hnotin. rewrite (string_lt_total _ _ Hab Hle). now left.
  - rewrite of_count_below; [constructor|].
    constructor; [lia|]. eapply Forall_impl; [|exact Hl']. simpl. intros e He. lia.
Qed.

(** Lexicographic ties are ties left in the order of the map. *)
Lemma lexicographic_ties_kept (wordCount : StdMap.t) (out : WordCount) :
  keys_ascending wordCount -> Permutation wordCount out -> descending out ->
  ties_lexicographic out -> keeps_ties wordCount out.
Proof.
  intros Hasc Hperm Hdesc Hties c.
  assert (Hnodup : NoDup (map fst out)).
  { apply (Permutation_NoDup (Permutation_map fst Hperm)).
    now apply keys_ascending_NoDup. }
  apply ascending_ext.
  - now apply lexicographic_ties_ascending.
  - unfold of_count. now apply StronglySorted_filter.
  - intros e. split; apply Permutation_in; [apply Permutation_sym|];
      now apply Permutation_filter'.
Qed.

(** C1, as the code has it: the ranking holds the entries of the statistics
    map, each word once, by occurrence count from the largest to the
    smallest. [std::sort] does not fix the order of entries of equal count:
    the adjacent ties of a ranking are in lexicographic order of their words
    if and only if the sort has left every group of equal count in the order
    of the map. *)
Theorem getWordCount_ranked (code : list ascii) (out : WordCount) :
  getWordCount code out ->
  exists words,
    getWordDataFromCode WordsInCamelCase code = Some words /\
    Permutation (wordStats words (numberOfLines code)) out /\
    descending out /\
    NoDup (map fst out) /\
    (keeps_ties (wordStats words (numberOfLines code)) out <-> ties_lexicographic out).
Proof.
  intros (ws & Hws & Hperm & Hsorted). exists ws.
  pose proof (wordStats_ascending ws (numberOfLines code)) as Hasc.
  apply sorted_by_rank_descending in Hsorted.
  split; [exact Hws|]. split; [exact Hperm|].
  split; [exact Hsorted|]. split; [|split].
  - apply (Permutation_NoDup (Permutation_map fst Hperm)).
    now apply keys_ascending_NoDup.
  - now apply kept_ties_lexicographic.
  - now apply lexicographic_ties_kept.
Qed.

Lemma getWordCount_b_a : getWordCount text_b_a ranking_b_a.
Proof. apply getWordCount_insertion_sound. reflexivity. Defined.

Lemma getWordCount_ranked_witness :
  getWordCount text_b_a ranking_b_a /\
  descending ranking_b_a /\ NoDup (map fst ranking_b_a) /\ ties_lexicographic ranking_b_a.
Proof.
  split; [exact getWordCount_b_a|].
  destruct (getWordCount_ranked text_b_a ranking_b_a getWordCount_b_a)
    as (ws & Hws & _ & Hdesc & Hnodup & Hties).
  split; [exact Hdesc|]. split; [exact Hnodup|].
  apply (proj1 Hties). injection Hws as <-. intros c. reflexivity.
Defined.

(** Splits a list at an element it holds. *)
Ltac split_at a r :=
  lazymatch r with
  | a :: ?l2 => constr:((@nil (list ascii * WordStats), l2))
  | ?b :: ?r' =>
      let p := split_at a r' in
      lazymatch p with (?l1, ?l2) => constr:((b :: l1, l2)) end
  end.

(** Proves that two lists given in full are permutations of each other. *)
Ltac permutation_of_literals :=
  repeat lazymatch goal with
    | |- Permutation [] [] => constructor
    | |- Permutation (?a :: ?l) ?r =>
        let p := split_at a r in
        lazymatch p with
        | (?l1, ?l2) => change r with (l1 ++ a :: l2); apply Permutation_cons_app; simpl app
        end
    end.

(** C1 fails as stated: on seventeen words met once each, [std::sort]
    may return them in an order that is not the lexicographic one ("q" before
    "p"), every count being equal. *)
Lemma ranking_ties_not_lexicographic :
  getWordCount text_17_words ranking_17_words /\
  descending ranking_17_words /\
  (exists pre a b post,
     ranking_17_words = pre ++ a :: b :: post /\
     nbOccurrences (snd a) = nbOccurrences (snd b) /\
     string_le (fst a) (fst b) = false) /\
  ~ ties_lexicographic ranking_17_words.
Proof.
  assert (Hsorted : descending ranking_17_words).
  { unfold descending. repeat constructor; discriminate. }
  assert (Hcut : ranking_17_words =
                 firstn 1 ranking_17_words ++
                 (str "q", mkWordStats 1 1 0 0) :: (str "p", mkWordStats 1 1 0 0) ::
                 skipn 3 ranking_17_words) by reflexivity.
  split; [|split; [exact Hsorted|split]].
  - exists (map (fun w => mkWordData (str w) 0)
              ["a"; "b"; "c"; "d"; "e"; "f"; "g"; "h"; "i"; "j"; "k"; "l"; "m"; "n"; "o";
               "p"; "q"]%string).
    split; [reflexivity|]. split; [|now apply sorted_by_rank_descending].
    vm_compute. permutation_of_literals.
  - eexists _, _, _, _. split; [exact Hcut|]. split; reflexivity.
  - intros Hties. specialize (Hties _ _ _ _ Hcut eq_refl). discriminate.
Qed.

(** ** The example of three lines *)

Lemma getWordCount_cat_dog_cat : getWordCount text_cat_dog_cat ranking_cat_dog_cat.
Proof. apply getWordCount_insertion_sound. reflexivity. Defined.

(** A map of two entries of different counts has one ranking. *)
Lemma std_sort_two (a b : list ascii * WordStats) (out : WordCount) :
  rank_comp a b = true -> std_sort rank_comp [a; b] out -> out = [a; b].
Proof.
  intros Hab (Hperm & Hsorted).
  destruct (Permutation_length_2_inv Hperm) as [->| ->]; [reflexivity|].
  inversion Hsorted as [|? ? _ Hf]; subst. inversion Hf as [|? ? Hba _]; subst.
  rewrite Hab in Hba. discriminate.
Qed.

(** C3: the text "cat\ndog\ncat\n" has 4 lines; "cat" is met twice, first
    on line 0 and last on line 2, so that its span is 3 and its proportion
    0.75; "dog" is met once, its span is 1 and its proportion 0.25; the
    ranking, the only one the sort can return, is cat then dog. *)
Theorem cat_dog_cat_statistics :
  numberOfLines text_cat_dog_cat = 4 /\
  getWordDataFromCode WordsInCamelCase text_cat_dog_cat =
    Some [mkWordData (str "cat") 0; mkWordData (str "dog") 1; mkWordData (str "cat") 2] /\
  getWordCount text_cat_dog_cat [(str "cat", cat_stats); (str "dog", dog_stats)] /\
  (forall out, getWordCount text_cat_dog_cat out ->
               out = [(str "cat", cat_stats); (str "dog", dog_stats)]) /\
  nbOccurrences cat_stats = 2 /\
  lowestOccurringLine_ cat_stats = 0 /\
  highestOccurringLine_ cat_stats = 2 /\
  span cat_stats = 3 /\
  Double.equals (proportion cat_stats) (3 # 4) /\
  nbOccurrences dog_stats = 1 /\
  span dog_stats = 1 /\
  Double.equals (proportion dog_stats) (1 # 4).
Proof.
  split; [reflexivity|]. split; [reflexivity|].
  split; [exact getWordCount_cat_dog_cat|].
  split; [|repeat split; reflexivity].
  intros out (ws & Hws & Hsort). injection Hws as <-.
  apply (std_sort_two (str "cat", cat_stats) (str "dog", dog_stats)); [reflexivity|].
  exact Hsort.
Qed.

(** ** Counts and spans over the whole pipeline *)

(** What the aggregator builds from the occurrences of a text. *)
Lemma pipeline_stats (code : list ascii) (out : WordCount) :
  representable code -> getWordCount code out ->
  exists words,
    getWordDataFromCode WordsInCamelCase code = Some words /\
    Forall (fun e => StatsInv (numberOfLines code) (snd e)) out /\
    total_occurrences out = Z.of_nat (length words).
Proof.
  intros Hfit (ws & Hws & Hperm & _).
  destruct (tokenizer_lines WordsInCamelCase code Hfit) as (ws' & Hws' & _ & Hlines & Hlen).
  rewrite Hws in Hws'. injection Hws' as <-.
  destruct (wordStats_inv (numberOfLines code) ws Hlines) as (Hinv & Htot).
  { unfold representable in Hfit. size_consts. lia. }
  exists ws. split; [exact Hws|]. split.
  - exact (Permutation_Forall Hperm Hinv).
  - now rewrite <- (total_occurrences_perm _ _ Hperm).
Qed.

(** C5: the occurrence counts of the ranking add up to the number of
    occurrences the tokenizer returns for the text in camel-case mode. *)
Theorem counts_sum_to_occurrences (code : list ascii) (out : WordCount) :
  representable code -> getWordCount code out ->
  exists words,
    getWordDataFromCode WordsInCamelCase code = Some words /\
    total_occurrences out = Z.of_nat (length words).
Proof.
  intros Hfit Hout.
  destruct (pipeline_stats code out Hfit Hout) as (ws & Hws & _ & Htot).
  now exists ws.
Qed.

Lemma counts_sum_to_occurrences_witness :
  exists words,
    getWordDataFromCode WordsInCamelCase text_cat_dog_cat = Some words /\
    total_occurrences ranking_cat_dog_cat = Z.of_nat (length words).
Proof.
  exact (counts_sum_to_occurrences text_cat_dog_cat ranking_cat_dog_cat
           representable_cat_dog_cat getWordCount_cat_dog_cat).
Defined.

Lemma numberOfLines_range (code : list ascii) : 0 <= numberOfLines code < Size.modulus.
Proof.
  unfold numberOfLines, Size.wrap. apply Z.mod_pos_bound. reflexivity.
Qed.

Lemma span_of_stats (N : Z) (s : WordStats) :
  N < Size.modulus -> StatsInv N s ->
  1 <= span s <= N /\ (nbOccurrences s = 1 -> span s = 1).
Proof.
  intros HN [Ht Hs Hl Ho Hh H1]. unfold span, nbOccurrences in *.
  destruct (Z.eqb_spec (nbOccurrences_ s) 0) as [H0|_]; [lia|].
  rewrite wrap_small by lia. split; [lia|]. intros Hone. specialize (H1 Hone). lia.
Qed.

Lemma addOneOccurrence_inv (k lineNumber : Z) (s : WordStats) :
  0 <= k -> k + 1 < Size.modulus ->
  nbOccurrences s = k ->
  lowestOccurringLine_ s <= highestOccurringLine_ s ->
  nbOccurrences (addOneOccurrence lineNumber s) = k + 1 /\
  lowestOccurringLine_ (addOneOccurrence lineNumber s)
    <= highestOccurringLine_ (addOneOccurrence lineNumber s).
Proof.
  intros Hk Hfit Hs Hle. unfold addOneOccurrence, nbOccurrences in *.
  rewrite Hs, wrap_small by lia.
  destruct (Z.eqb_spec (k + 1) 1); cbn; lia.
Qed.

Lemma occurrences_recorded_inv (lines : list Z) (s : WordStats) :
  nbOccurrences s + Z.of_nat (length lines) < Size.modulus ->
  0 <= nbOccurrences s ->
  lowestOccurringLine_ s <= highestOccurringLine_ s ->
  let s' := fold_left (fun s lineNumber => addOneOccurrence lineNumber s) lines s in
  nbOccurrences s' = nbOccurrences s + Z.of_nat (length lines) /\
  lowestOccurringLine_ s' <= highestOccurringLine_ s'.
Proof.
  revert s. induction lines as [|l lines IH]; intros s Hfit Hpos Hle; simpl fold_left.
  - simpl. split; [lia|exact Hle].
  - simpl length in Hfit.
    destruct (addOneOccurrence_inv (nbOccurrences s) l s Hpos) as (Hocc & Hle');
      [lia|reflexivity|exact Hle|].
    destruct (IH (addOneOccurrence l s)) as (IH1 & IH2); [lia|lia|exact Hle'|].
    split; [|exact IH2]. rewrite IH1, Hocc. simpl length. lia.
Qed.

(** C6: the span of every word of the ranking is at least 1 and at most
    the number of lines of the text, and it is 1 for a word met once. The
    statistics of a word, from the first occurrence on, have their lowest
    line at most their highest; before any occurrence both are zero. *)
Theorem span_within_text :
  (forall code out,
     representable code -> getWordCount code out ->
     Forall (fun e =>
               1 <= span (snd e) <= numberOfLines code /\
               totalNumberOfLines (snd e) = numberOfLines code /\
               (nbOccurrences (snd e) = 1 -> span (snd e) = 1) /\
               0 < nbOccurrences (snd e) /\
               lowestOccurringLine_ (snd e) <= highestOccurringLine_ (snd e)) out) /\
  (forall lines,
     Z.of_nat (length lines) < Size.modulus ->
     let s := occurrences_recorded lines in
     nbOccurrences s = Z.of_nat (length lines) /\
     (0 < nbOccurrences s -> lowestOccurringLine_ s <= highestOccurringLine_ s) /\
     (nbOccurrences s = 0 ->
      lowestOccurringLine_ s = 0 /\ highestOccurringLine_ s = 0)).
Proof.
  split.
  - intros code out Hfit Hout.
    destruct (pipeline_stats code out Hfit Hout) as (ws & _ & Hinv & _).
    eapply Forall_impl; [|exact Hinv]. simpl. intros e He.
    destruct (span_of_stats _ _ (proj2 (numberOfLines_range code)) He) as (Hspan & Hone).
    destruct He as [Ht Hs Hl Ho Hh H1].
    split; [exact Hspan|]. split; [exact Ht|]. split; [exact Hone|]. split; [lia|exact Ho].
  - intros lines Hfit s. subst s. unfold occurrences_recorded.
    destruct (occurrences_recorded_inv lines WordStats_new) as (Hocc & Hle);
      [exact Hfit|cbn; lia|cbn; lia|].
    change (nbOccurrences WordStats_new) with 0 in Hocc. rewrite Z.add_0_l in Hocc.
    split; [exact Hocc|]. split; [intros _; exact Hle|].
    intros H0. rewrite Hocc in H0.
    destruct lines; [split; reflexivity|simpl length in H0; lia].
Qed.

Lemma span_within_text_witness :
  Forall (fun e =>
            1 <= span (snd e) <= numberOfLines text_cat_dog_cat /\
            totalNumberOfLines (snd e) = numberOfLines text_cat_dog_cat /\
            (nbOccurrences (snd e) = 1 -> span (snd e) = 1) /\
            0 < nbOccurrences (snd e) /\
            lowestOccurringLine_ (snd e) <= highestOccurringLine_ (snd e))
    ranking_cat_dog_cat.
Proof.
  exact (proj1 span_within_text text_cat_dog_cat ranking_cat_dog_cat
           representable_cat_dog_cat getWordCount_cat_dog_cat).
Defined.

(** ** Texts without delimiter *)

Lemma range_incl (code : list ascii) (a b : nat) (x : ascii) :
  In x (Std.range code a b) -> In x code.
Proof.
  unfold Std.range. intros H.
  rewrite <- (firstn_skipn a code). apply in_or_app. right.
  rewrite <- (firstn_skipn (b - a) (skipn a code)). apply in_or_app. now left.
Qed.

(** Between two words of a text without delimiter nothing is skipped. *)
Lemma find_if_not_stays (code : list ascii) (first : nat) :
  no_delimiter code = true -> (first <= length code)%nat ->
  Std.find_if_not code first (Std.end_ code) isDelimiter = first.
Proof.
  intros Hno Hfirst.
  destruct (find_if_not_to_end code first isDelimiter Hfirst) as (Hr & Hall & _).
  set (r := Std.find_if_not code first (Std.end_ code) isDelimiter) in *.
  destruct (Nat.eq_dec r first) as [He|Hne]; [exact He|exfalso].
  assert (Hlen : length (Std.range code first r) = (r - first)%nat)
    by (apply range_length; lia).
  destruct (Std.range code first r) as [|c l] eqn:Hrange; [simpl in Hlen; lia|].
  assert (Hin : In c code) by (apply (range_incl code first r); rewrite Hrange; now left).
  unfold no_delimiter in Hno. rewrite forallb_forall in Hno. specialize (Hno c Hin).
  simpl in Hall. apply andb_prop in Hall. destruct Hall as (Hc & _).
  rewrite Hc in Hno. discriminate.
Qed.

Lemma skipn_cons_exists (code : list ascii) (b : nat) :
  (b < length code)%nat -> exists c rest, skipn b code = c :: rest.
Proof.
  intros Hlt. destruct (skipn b code) as [|c rest] eqn:Hs.
  - pose proof (length_skipn b code) as Hlen. rewrite Hs in Hlen. simpl in Hlen. lia.
  - now exists c, rest.
Qed.

Lemma filter_none (p : ascii -> bool) (l : list ascii) :
  forallb (fun c => negb (p c)) l = true -> filter p l = [].
Proof.
  induction l as [|c l IH]; simpl; [reflexivity|].
  intros H. apply andb_prop in H. destruct H as (Hc & Hl).
  apply negb_true_iff in Hc. rewrite Hc. now apply IH.
Qed.

Section NoDelimiter.
Variable code : list ascii.
Variable isEndOfWord : ascii -> bool.
Hypothesis code_plain : no_delimiter code = true.

Lemma cut_init : CutInv code isEndOfWord (scan_init code).
Proof.
  unfold scan_init. rewrite (find_if_not_stays code 0 code_plain (Nat.le_0_l _)).
  constructor; simpl; auto with arith.
Qed.

Lemma cut_step (st : Scan) :
  CutInv code isEndOfWord st -> beginWord st <> Std.end_ code ->
  CutInv code isEndOfWord (scan_step code isEndOfWord st) /\
  (beginWord st < beginWord (scan_step code isEndOfWord st) <= length code)%nat.
Proof.
  intros [Hend Hbound Hline Hlines Hconcat Hcount Hat] Hne. unfold Std.end_ in Hne.
  assert (Hlt : (beginWord st < length code)%nat) by lia.
  destruct (skipn_cons_exists code (beginWord st) Hlt) as (c & rest & Hs).
  destruct (find_if_to_end code (Std.next (beginWord st)) isEndOfWord Hlt)
    as (He' & Hword & Hstop).
  set (e' := Std.find_if code (Std.next (beginWord st)) (Std.end_ code) isEndOfWord) in *.
  unfold Std.next in *.
  assert (Hstep : scan_step code isEndOfWord st =
                  mkScan (words st ++ [mkWordData (Std.range code (beginWord st) e') 0])
                    e' e' 0).
  { change (scan_step code isEndOfWord st)
      with (mkScan
              (words st ++
               [mkWordData (Std.range code (beginWord st) e')
                  (Size.wrap (line st + Std.count code (endWord st) (beginWord st) newline))])
              e' (Std.find_if_not code e' (Std.end_ code) isDelimiter)
              (Size.wrap (line st + Std.count code (endWord st) (beginWord st) newline))).
    rewrite (find_if_not_stays code e' code_plain (proj2 He')).
    rewrite Hend, Hline. unfold Std.count. rewrite range_empty. reflexivity. }
  rewrite Hstep. cbn [beginWord]. split; [|lia].
  constructor; cbn [words endWord beginWord line].
  - reflexivity.
  - lia.
  - reflexivity.
  - apply Forall_app. split; [exact Hlines|]. now repeat constructor.
  - rewrite map_app, concat_app, Hconcat. simpl. rewrite app_nil_r.
    rewrite <- !range_from_begin. symmetry. apply range_app; lia.
  - rewrite length_app, Hcount. simpl length.
    destruct (Nat.eqb_spec e' 0) as [He0|_]; [lia|].
    destruct (Nat.eqb_spec (beginWord st) 0) as [Hb0|Hb0].
    + rewrite Hb0 in Hword. now rewrite (filter_none _ _ Hword).
    + destruct Hat as [Hat|[Hat|(c2 & rest2 & Hs2 & Hc2)]]; [contradiction|contradiction|].
      rewrite Hs in Hs2. injection Hs2 as <- <-.
      rewrite (range_app code 1 (beginWord st) e') by lia.
      rewrite (range_cons code (beginWord st) e' c rest Hs) by lia.
      rewrite filter_app, length_app. simpl. rewrite Hc2. simpl.
      rewrite (filter_none _ _ Hword). simpl. lia.
  - right. destruct Hstop as [Hstop|Hstop]; [now left|now right].
Qed.

(** The words of a text without delimiter. *)
Lemma no_delimiter_words :
  code <> [] ->
  exists words,
    getWordDataFromCode_pred code isEndOfWord = Some words /\
    length words = S (length (filter isEndOfWord (tl code))) /\
    Forall (fun w => lineNumber w = 0) words /\
    concat (map word words) = code.
Proof.
  intros Hcode. unfold getWordDataFromCode_pred.
  destruct (scan_loop_rule code isEndOfWord (CutInv code isEndOfWord) cut_step
              (length code) (scan_init code) cut_init)
    as (st & Hst & [Hend Hbound Hline Hlines Hconcat Hcount Hat] & Hexit).
  - apply cut_init.
  - lia.
  - exists (words st). split; [exact Hst|]. unfold Std.end_ in Hexit.
    rewrite Hexit in Hcount, Hconcat.
    destruct code as [|c rest]; [contradiction|].
    split; [|split; [exact Hlines|]].
    + rewrite Hcount. simpl Nat.eqb. cbv iota.
      change (length (c :: rest)) with (Std.end_ (c :: rest)).
      rewrite range_to_end. reflexivity.
    + now rewrite firstn_all in Hconcat.
Qed.
End NoDelimiter.

Lemma one_word (words : list WordData) (code : list ascii) :
  length words = 1%nat -> Forall (fun w => lineNumber w = 0) words ->
  concat (map word words) = code -> words = [mkWordData code 0].
Proof.
  destruct words as [|[w l] [|? ?]]; try discriminate. simpl.
  intros _ Hl Hc. inversion Hl as [|? ? Hl0 _]; subst. simpl in Hl0. subst l.
  now rewrite app_nil_r.
Qed.

(** C2, as the code has it: a non-empty text without delimiter is one
    word at line 0 in entire-words mode. In camel-case mode it is cut
    before every upper-case letter but the first character: the words,
    all at line 0, are one more than these letters and make up the text;
    there is exactly one word when no character after the first is
    upper-case. *)
Theorem words_of_text_without_delimiter (code : list ascii) :
  code <> [] -> no_delimiter code = true ->
  getWordDataFromCode EntireWords code = Some [mkWordData code 0] /\
  (exists words,
     getWordDataFromCode WordsInCamelCase code = Some words /\
     length words = S (count_upper (tl code)) /\
     Forall (fun w => lineNumber w = 0) words /\
     concat (map word words) = code) /\
  (count_upper (tl code) = 0%nat ->
   getWordDataFromCode WordsInCamelCase code = Some [mkWordData code 0]).
Proof.
  intros Hcode Hplain.
  assert (Htail : forallb (fun c => negb (isDelimiter c)) (tl code) = true).
  { unfold no_delimiter in Hplain. destruct code as [|c rest]; [reflexivity|].
    simpl in Hplain. apply andb_prop in Hplain. apply Hplain. }
  destruct (no_delimiter_words code isDelimiter Hplain Hcode) as (ws & Hws & Hlen & Hl & Hc).
  destruct (no_delimiter_words code (isEndOfWord_of WordsInCamelCase) Hplain Hcode)
    as (ws' & Hws' & Hlen' & Hl' & Hc').
  assert (Hupper : filter (isEndOfWord_of WordsInCamelCase) (tl code) = filter isupper (tl code)).
  { apply filter_ext_in. intros c Hin. rewrite forallb_forall in Htail.
    specialize (Htail c Hin). apply negb_true_iff in Htail. simpl. now rewrite Htail. }
  rewrite Hupper in Hlen'. fold (count_upper (tl code)) in Hlen'.
  rewrite (filter_none _ _ Htail) in Hlen. simpl in Hlen.
  split; [|split].
  - unfold getWordDataFromCode. simpl isEndOfWord_of. rewrite Hws.
    f_equal. now apply one_word.
  - exists ws'. now repeat split.
  - intros H0. unfold getWordDataFromCode. rewrite Hws'. f_equal.
    apply one_word; [now rewrite Hlen', H0|exact Hl'|exact Hc'].
Qed.

Lemma words_of_text_without_delimiter_witness :
  getWordDataFromCode EntireWords text_fooBar_word = Some [mkWordData text_fooBar_word 0] /\
  (exists words,
     getWordDataFromCode WordsInCamelCase text_fooBar_word = Some words /\
     length words = 2%nat /\
     Forall (fun w => lineNumber w = 0) words /\
     concat (map word words) = text_fooBar_word).
Proof.
  assert (Hne : text_fooBar_word <> []) by discriminate.
  destruct (words_of_text_without_delimiter text_fooBar_word Hne eq_refl) as (H1 & H2 & _).
  split; [exact H1|exact H2].
Defined.

(** C2 fails as stated: "aB" is not empty and holds no delimiter, and in
    camel-case mode it is two words. *)
Lemma camel_case_text_without_delimiter_two_words :
  text_aB <> [] /\
  no_delimiter text_aB = true /\
  getWordDataFromCode WordsInCamelCase text_aB =
    Some [mkWordData (str "a") 0; mkWordData (str "B") 0] /\
  ~ (exists w, getWordDataFromCode WordsInCamelCase text_aB = Some [w]).
Proof.
  split; [discriminate|]. split; [reflexivity|]. split; [reflexivity|].
  intros (w & Hw). discriminate Hw.
Qed.

(** * Further properties of the code *)

(** ** The words of the tokenizer in the text *)

Lemma isEndOfWord_delimiter (how : HowToDelimitWords) (c : ascii) :
  isDelimiter c = true -> isEndOfWord_of how c = true.
Proof. intros Hc. destruct how; simpl; [exact Hc|]. now rewrite Hc. Qed.

Lemma wrap_add_wrap (a b : Z) : Size.wrap (Size.wrap a + b) = Size.wrap (a + b).
Proof. unfold Size.wrap. apply Zplus_mod_idemp_l. Qed.

Section TokenizerStructure.
Variable code : list ascii.
Variable isEndOfWord : ascii -> bool.
Hypothesis newline_ends : isEndOfWord newline = true.

Lemma tok_init : TokInv code isEndOfWord (scan_init code).
Proof.
  destruct (find_if_not_to_end code 0 isDelimiter (Nat.le_0_l _)) as (Hr & Hall & Hstop).
  constructor; simpl; auto; constructor.
Qed.

Lemma tok_step (st : Scan) :
  TokInv code isEndOfWord st -> beginWord st <> Std.end_ code ->
  TokInv code isEndOfWord (scan_step code isEndOfWord st) /\
  (beginWord st < beginWord (scan_step code isEndOfWord st) <= length code)%nat.
Proof.
  intros [Hws Hord Hgap Hbeg Hline] Hne. unfold Std.end_ in Hne.
  destruct Hbeg as [Hb|(c & rest & Hs & Hc)]; [contradiction|].
  assert (Hlt : (beginWord st < length code)%nat) by lia.
  destruct (find_if_to_end code (Std.next (beginWord st)) isEndOfWord Hlt)
    as (He' & Hword & Hstop).
  set (e' := Std.find_if code (Std.next (beginWord st)) (Std.end_ code) isEndOfWord) in *.
  destruct (find_if_not_to_end code e' isDelimiter (proj2 He')) as (Hb' & Hgap' & Hstop').
  set (b' := Std.find_if_not code e' (Std.end_ code) isDelimiter) in *.
  unfold Std.next in *.
  assert (Hline' : Size.wrap (line st + Std.count code (endWord st) (beginWord st) newline)
                   = Size.wrap (Std.count code 0 (beginWord st) newline)).
  { rewrite Hline, wrap_add_wrap, <- count_range_app by lia. reflexivity. }
  split; [|change (beginWord (scan_step code isEndOfWord st)) with b'; lia].
  change (scan_step code isEndOfWord st)
    with (mkScan
            (words st ++
             [mkWordData (Std.range code (beginWord st) e')
                (Size.wrap (line st + Std.count code (endWord st) (beginWord st) newline))])
            e' b'
            (Size.wrap (line st + Std.count code (endWord st) (beginWord st) newline))).
  rewrite Hline'.
  constructor; cbn [words endWord beginWord line].
  - apply (Tokens_snoc code isEndOfWord (words st) (endWord st) (beginWord st) e'); [exact Hws|].
    constructor; cbn [word lineNumber]; auto.
    + lia.
    + now exists c, rest.
  - lia.
  - exact Hgap'.
  - exact Hstop'.
  - rewrite (count_range_app code 0 (beginWord st) e') by lia.
    rewrite (word_no_newline code isEndOfWord newline_ends (beginWord st) e' c rest Hs Hc)
      by (exact Hword || lia).
    now rewrite Z.add_0_r.
Qed.

(** The tokenizer returns the words of the whole text. *)
Lemma getWordDataFromCode_pred_tokens :
  exists ws stop,
    getWordDataFromCode_pred code isEndOfWord = Some ws /\
    Tokens code isEndOfWord ws stop /\
    forallb isDelimiter (Std.range code stop (length code)) = true.
Proof.
  unfold getWordDataFromCode_pred.
  destruct (scan_loop_rule code isEndOfWord (TokInv code isEndOfWord) tok_step
              (length code) (scan_init code) tok_init)
    as (st & Hst & [Hws Hord Hgap Hbeg Hline] & Hexit).
  - apply tok_init.
  - lia.
  - exists (words st), (endWord st). split; [exact Hst|]. split; [exact Hws|].
    unfold Std.end_ in Hexit. now rewrite <- Hexit.
Qed.

Hypothesis delimiter_ends : forall c, isDelimiter c = true -> isEndOfWord c = true.

Lemma placed_word_chars (from start stop : nat) (w : WordData) :
  Placed code isEndOfWord from start stop w ->
  exists c inner,
    word w = c :: inner /\ isDelimiter c = false /\
    forallb (fun x => negb (isEndOfWord x)) inner = true /\
    no_delimiter (word w) = true.
Proof.
  intros [Hord Hgap (c & rest & Hs & Hc) Hinner Hstop Hword Hline].
  exists c, (Std.range code (S start) stop).
  rewrite Hword, (range_cons code start stop c rest Hs) by lia.
  split; [reflexivity|]. split; [exact Hc|]. split; [exact Hinner|].
  unfold no_delimiter. simpl. rewrite Hc. simpl.
  rewrite forallb_forall in *. intros x Hx. specialize (Hinner x Hx).
  destruct (isDelimiter x) eqn:Hd; [|reflexivity].
  rewrite (delimiter_ends x Hd) in Hinner. discriminate.
Qed.

Lemma tokens_words (ws : list WordData) (stop : nat) :
  Tokens code isEndOfWord ws stop ->
  Forall (fun w => exists c inner,
                     word w = c :: inner /\ isDelimiter c = false /\
                     forallb (fun x => negb (isEndOfWord x)) inner = true /\
                     no_delimiter (word w) = true) ws.
Proof.
  induction 1 as [|ws from start stop w Hws IH Hw]; [constructor|].
  apply Forall_app. split; [exact IH|]. constructor; [|constructor].
  exact (placed_word_chars from start stop w Hw).
Qed.

Lemma filter_all (p : ascii -> bool) (l : list ascii) :
  forallb p l = true -> filter p l = l.
Proof.
  induction l as [|c l IH]; simpl; [reflexivity|].
  intros H. apply andb_prop in H. destruct H as (Hc & Hl).
  rewrite Hc. f_equal. now apply IH.
Qed.

Lemma tokens_concat (ws : list WordData) (stop : nat) :
  Tokens code isEndOfWord ws stop ->
  (stop <= length code)%nat /\
  concat (map word ws) = filter (fun c => negb (isDelimiter c)) (firstn stop code).
Proof.
  induction 1 as [|ws from start stop w Hws (IHle & IH) Hw].
  - split; [lia|reflexivity].
  - destruct (placed_word_chars from start stop w Hw) as (c & inner & _ & _ & _ & Hplain).
    destruct Hw as [Hord Hgap _ _ _ Hword _].
    split; [lia|].
    rewrite map_app, concat_app, IH. simpl. rewrite app_nil_r.
    rewrite <- !range_from_begin.
    rewrite (range_app code 0 from stop) by lia.
    rewrite (range_app code from start stop) by lia.
    rewrite !filter_app. f_equal.
    rewrite (filter_none (fun c => negb (isDelimiter c)) (Std.range code from start)).
    + simpl. rewrite <- Hword. symmetry. now apply filter_all.
    + rewrite forallb_forall in *. intros x Hx. now rewrite (Hgap x Hx).
Qed.
End TokenizerStructure.

Lemma placed_line_exact (code : list ascii) (isEndOfWord : ascii -> bool)
    (from start stop : nat) (w : WordData) :
  representable code -> Placed code isEndOfWord from start stop w ->
  lineNumber w = Z.of_nat (count_occ ascii_dec (firstn start code) newline).
Proof.
  intros Hfit Hw. rewrite (placed_line _ _ _ _ _ _ Hw).
  unfold Std.count. rewrite range_from_begin. apply wrap_small.
  pose proof (count_occ_bound ascii_dec newline (firstn start code)) as Hb.
  rewrite length_firstn in Hb. unfold representable in Hfit. size_consts. lia.
Qed.

Lemma getWordDataFromCode_tokens (how : HowToDelimitWords) (code : list ascii) :
  exists ws stop,
    getWordDataFromCode how code = Some ws /\
    Tokens code (isEndOfWord_of how) ws stop /\
    forallb isDelimiter (Std.range code stop (length code)) = true.
Proof.
  exact (getWordDataFromCode_pred_tokens code (isEndOfWord_of how) (isEndOfWord_newline how)).
Qed.

(** X1: in both modes the tokenizer returns, in text order, words that are
    placed one after the other in the text: each starts at the first
    character that is not a delimiter after the end of the one before, runs
    up to the next character that ends a word (or the end of the text), and
    carries the number of newlines before its start (reduced to [size_t]);
    after the last word the text holds delimiters only. *)
Theorem tokenizer_places_words (how : HowToDelimitWords) (code : list ascii) :
  exists ws stop,
    getWordDataFromCode how code = Some ws /\
    Tokens code (isEndOfWord_of how) ws stop /\
    forallb isDelimiter (Std.range code stop (length code)) = true.
Proof. apply getWordDataFromCode_tokens. Qed.

Lemma tokenizer_words_chars (how : HowToDelimitWords) (code : list ascii) :
  exists ws,
    getWordDataFromCode how code = Some ws /\
    Forall (fun w => exists c inner,
                       word w = c :: inner /\ isDelimiter c = false /\
                       forallb (fun x => negb (isEndOfWord_of how x)) inner = true /\
                       no_delimiter (word w) = true) ws /\
    concat (map word ws) = filter (fun c => negb (isDelimiter c)) code.
Proof.
  destruct (getWordDataFromCode_tokens how code) as (ws & stop & Hws & Htok & Hrest).
  exists ws. split; [exact Hws|]. split.
  - exact (tokens_words code _ (isEndOfWord_delimiter how) ws stop Htok).
  - destruct (tokens_concat code _ (isEndOfWord_delimiter how) ws stop Htok) as (Hle & Hcat).
    rewrite Hcat. rewrite <- (firstn_skipn stop code) at 2. rewrite filter_app.
    change (length code) with (Std.end_ code) in Hrest. rewrite range_to_end in Hrest.
    rewrite (filter_none (fun c => negb (isDelimiter c)) (skipn stop code)).
    + now rewrite app_nil_r.
    + rewrite forallb_forall in *. intros x Hx. now rewrite (Hrest x Hx).
Qed.

(** X2: in both modes every word the tokenizer returns is non-empty and
    holds no delimiter; in camel-case mode no character of a word after its
    first is an upper-case letter. *)
Theorem tokenizer_words_wellformed (how : HowToDelimitWords) (code : list ascii) :
  exists ws,
    getWordDataFromCode how code = Some ws /\
    Forall (fun w => word w <> [] /\ no_delimiter (word w) = true) ws /\
    (how = WordsInCamelCase -> Forall (fun w => count_upper (tl (word w)) = 0%nat) ws).
Proof.
  destruct (tokenizer_words_chars how code) as (ws & Hws & Hchars & _).
  exists ws. split; [exact Hws|]. split.
  - eapply Forall_impl; [|exact Hchars]. simpl.
    intros w (c & inner & Hw & _ & _ & Hplain). split; [now rewrite Hw|exact Hplain].
  - intros ->. eapply Forall_impl; [|exact Hchars]. simpl.
    intros w (c & inner & Hw & _ & Hinner & _). rewrite Hw. simpl tl.
    unfold count_upper. rewrite (filter_none isupper inner); [reflexivity|].
    rewrite forallb_forall in *. intros x Hx. specialize (Hinner x Hx).
    apply negb_true_iff in Hinner. apply orb_false_elim in Hinner.
    now rewrite (proj2 Hinner).
Qed.

(** X3: in both modes the words the tokenizer returns, put end to end, are
    the text without its delimiters: no other character is lost, none is
    added and none changes place. *)
Theorem tokenizer_keeps_characters (how : HowToDelimitWords) (code : list ascii) :
  exists ws,
    getWordDataFromCode how code = Some ws /\
    concat (map word ws) = filter (fun c => negb (isDelimiter c)) code.
Proof.
  destruct (tokenizer_words_chars how code) as (ws & Hws & _ & Hcat).
  now exists ws.
Qed.

Lemma concat_nonempty_length (ls : list (list ascii)) :
  Forall (fun l => l <> []) ls -> (length ls <= length (concat ls))%nat.
Proof.
  induction 1 as [|l ls Hl Hls IH]; simpl; [lia|].
  rewrite length_app. destruct l; [contradiction|]. simpl. lia.
Qed.

(** X4: in both modes the tokenizer returns no word exactly when every
    character of the text is a delimiter, and never more words than the text
    has characters that are not delimiters. *)
Theorem tokenizer_word_count (how : HowToDelimitWords) (code : list ascii) :
  (getWordDataFromCode how code = Some [] <-> forallb isDelimiter code = true) /\
  exists ws,
    getWordDataFromCode how code = Some ws /\
    (length ws <= length (filter (fun c => negb (isDelimiter c)) code))%nat.
Proof.
  destruct (tokenizer_words_chars how code) as (ws & Hws & Hchars & Hcat).
  assert (Hlen : (length ws <= length (filter (fun c => negb (isDelimiter c)) code))%nat).
  { rewrite <- Hcat, <- (length_map word ws). apply concat_nonempty_length.
    apply Forall_map. eapply Forall_impl; [|exact Hchars]. simpl.
    intros w (c & inner & Hw & _). now rewrite Hw. }
  split; [|now exists ws]. rewrite Hws. split.
  - intros [= ->]. simpl in Hcat. apply forallb_forall. intros x Hx.
    destruct (isDelimiter x) eqn:Hd; [reflexivity|exfalso].
    assert (Hin : In x (filter (fun c => negb (isDelimiter c)) code))
      by (apply filter_In; now rewrite Hd).
    now rewrite <- Hcat in Hin.
  - intros Hall. f_equal.
    rewrite (filter_none (fun c => negb (isDelimiter c)) code) in Hlen.
    + destruct ws; [reflexivity|simpl in Hlen; lia].
    + rewrite forallb_forall in *. intros x Hx. now rewrite (Hall x Hx).
Qed.

Lemma tokens_located (code : list ascii) (isEndOfWord : ascii -> bool)
    (ws : list WordData) (stop : nat) :
  representable code -> Tokens code isEndOfWord ws stop ->
  Forall (fun w => exists start,
                     word w = Std.range code start (start + length (word w)) /\
                     lineNumber w =
                       Z.of_nat (count_occ ascii_dec (firstn start code) newline)) ws.
Proof.
  intros Hfit. induction 1 as [|ws from start stop w Hws IH Hw]; [constructor|].
  apply Forall_app. split; [exact IH|]. constructor; [|constructor].
  exists start. split; [|exact (placed_line_exact _ _ _ _ _ _ Hfit Hw)].
  destruct Hw as [Hord _ _ _ _ Hword _].
  rewrite Hword at 1. rewrite Hword, range_length by lia.
  f_equal. lia.
Qed.

(** X5: in both modes every word the tokenizer returns is a piece of the
    text, and its line number is the number of newline characters of the
    text before the place where the piece starts. *)
Theorem tokenizer_line_numbers_exact (how : HowToDelimitWords) (code : list ascii) :
  representable code ->
  exists ws,
    getWordDataFromCode how code = Some ws /\
    Forall (fun w => exists start,
                       word w = Std.range code start (start + length (word w)) /\
                       lineNumber w =
                         Z.of_nat (count_occ ascii_dec (firstn start code) newline)) ws.
Proof.
  intros Hfit.
  destruct (getWordDataFromCode_tokens how code) as (ws & stop & Hws & Htok & _).
  exists ws. split; [exact Hws|].
  exact (tokens_located code _ ws stop Hfit Htok).
Qed.

Lemma tokenizer_line_numbers_exact_witness :
  exists ws,
    getWordDataFromCode EntireWords text_cat_dog_cat = Some ws /\
    Forall (fun w => exists start,
                       word w = Std.range text_cat_dog_cat start (start + length (word w)) /\
                       lineNumber w =
                         Z.of_nat (count_occ ascii_dec (firstn start text_cat_dog_cat) newline))
      ws.
Proof.
  exact (tokenizer_line_numbers_exact EntireWords text_cat_dog_cat representable_cat_dog_cat).
Defined.

(** ** The order of words and of occurrences *)

Lemma WordData_less_spec (a b : WordData) :
  less a b = true <->
  string_lt (word a) (word b) = true \/
  (word a = word b /\ lineNumber a < lineNumber b).
Proof.
  unfold less, WordData_less.
  destruct (string_lt (word a) (word b)) eqn:Hab.
  - split; auto.
  - destruct (string_lt (word b) (word a)) eqn:Hba.
    + split; [discriminate|]. intros [H|(He & _)]; [discriminate|].
      rewrite He, string_lt_irrefl in Hba. discriminate.
    + pose proof (string_lt_total _ _ Hab Hba) as He. rewrite Z.ltb_lt.
      split; [now right|]. intros [H|(_ & H)]; [discriminate|exact H].
Qed.

(** X6: [operator<] of [WordData] orders occurrences by word, then by
    line: it is irreflexive and transitive, of two different occurrences one
    is below the other, and the [==] that [Comparable] derives from it holds
    exactly of occurrences with the same word and the same line. *)
Theorem WordData_order_is_total :
  (forall a : WordData, less a a = false) /\
  (forall a b c : WordData, less a b = true -> less b c = true -> less a c = true) /\
  (forall a b : WordData, Comparable.eq a b = true <-> a = b) /\
  (forall a b : WordData, a <> b -> less a b = true \/ less b a = true).
Proof.
  assert (Hirr : forall a : WordData, less a a = false).
  { intros a. destruct (less a a) eqn:H; [|reflexivity].
    apply WordData_less_spec in H. destruct H as [H|(_ & H)]; [|lia].
    rewrite string_lt_irrefl in H. discriminate. }
  assert (Heq : forall a b : WordData, Comparable.eq a b = true <-> a = b).
  { intros a b. unfold Comparable.eq. split.
    - intros H. apply andb_prop in H. destruct H as (Hab & Hba).
      apply negb_true_iff in Hab, Hba.
      unfold less, WordData_less in Hab, Hba.
      destruct (string_lt (word a) (word b)) eqn:H1; [discriminate|].
      destruct (string_lt (word b) (word a)) eqn:H2; [discriminate|].
      apply Z.ltb_ge in Hab, Hba.
      pose proof (string_lt_total _ _ H1 H2) as Hw.
      destruct a as [wa la], b as [wb lb]. simpl in *. subst wb. f_equal. lia.
    - intros ->. now rewrite Hirr. }
  split; [exact Hirr|]. split; [|split; [exact Heq|]].
  - intros a b c Hab Hbc. apply WordData_less_spec in Hab, Hbc. apply WordData_less_spec.
    destruct Hab as [Hab|(Hab & Hl)], Hbc as [Hbc|(Hbc & Hl')].
    + left. now apply (string_lt_trans _ (word b)).
    + left. now rewrite <- Hbc.
    + left. now rewrite Hab.
    + right. split; [congruence|lia].
  - intros a b Hne.
    destruct (less a b) eqn:Hab; [now left|]. destruct (less b a) eqn:Hba; [now right|].
    exfalso. apply Hne, Heq. unfold Comparable.eq. now rewrite Hab, Hba.
Qed.

Lemma WordData_order_is_total_witness :
  less (mkWordData (str "cat") 0) (mkWordData (str "cat") 2) = true /\
  less (mkWordData (str "cat") 2) (mkWordData (str "dog") 1) = true /\
  less (mkWordData (str "cat") 0) (mkWordData (str "dog") 1) = true.
Proof.
  assert (H1 : less (mkWordData (str "cat") 0) (mkWordData (str "cat") 2) = true)
    by reflexivity.
  assert (H2 : less (mkWordData (str "cat") 2) (mkWordData (str "dog") 1) = true)
    by reflexivity.
  split; [exact H1|]. split; [exact H2|].
  exact (proj1 (proj2 WordData_order_is_total) _ _ _ H1 H2).
Defined.

(** X7: the comparison [getWordCount] gives to [std::sort] is a strict weak
    ordering, as [std::sort] requires: it is irreflexive and transitive, and
    being unordered by it (having the same occurrence count) is transitive. *)
Theorem rank_comp_strict_weak_ordering :
  (forall a, rank_comp a a = false) /\
  (forall a b c, rank_comp a b = true -> rank_comp b c = true -> rank_comp a c = true) /\
  (forall a b c,
     rank_comp a b = false -> rank_comp b a = false ->
     rank_comp b c = false -> rank_comp c b = false ->
     rank_comp a c = false /\ rank_comp c a = false) /\
  (forall a b,
     (rank_comp a b = false /\ rank_comp b a = false) <->
     nbOccurrences (snd a) = nbOccurrences (snd b)).
Proof.
  repeat split; intros; rewrite ?rank_comp_spec in *;
    repeat match goal with
      | H : (_ <? _) = true |- _ => apply Z.ltb_lt in H
      | H : (_ <? _) = false |- _ => apply Z.ltb_ge in H
      | H : _ /\ _ |- _ => destruct H
      | |- (_ <? _) = true => apply Z.ltb_lt
      | |- (_ <? _) = false => apply Z.ltb_ge
      end; lia.
Qed.

Lemma rank_comp_strict_weak_ordering_witness :
  rank_comp (str "cat", cat_stats) (str "dog", dog_stats) = true /\
  rank_comp (str "dog", dog_stats) (str "x", WordStats_new) = true /\
  rank_comp (str "cat", cat_stats) (str "x", WordStats_new) = true.
Proof.
  assert (H1 : rank_comp (str "cat", cat_stats) (str "dog", dog_stats) = true) by reflexivity.
  assert (H2 : rank_comp (str "dog", dog_stats) (str "x", WordStats_new) = true)
    by reflexivity.
  split; [exact H1|]. split; [exact H2|].
  exact (proj1 (proj2 rank_comp_strict_weak_ordering) _ _ _ H1 H2).
Defined.

(** ** The statistics of a word, from its occurrences *)

Lemma addOneOccurrence_first (l : Z) (s : WordStats) :
  nbOccurrences s = 0 ->
  addOneOccurrence l s = mkWordStats (totalNumberOfLines s) 1 l l.
Proof.
  unfold addOneOccurrence, nbOccurrences, totalNumberOfLines. intros ->. reflexivity.
Qed.

Lemma addOneOccurrence_next (l : Z) (s : WordStats) :
  1 <= nbOccurrences s -> nbOccurrences s + 1 < Size.modulus ->
  addOneOccurrence l s =
  mkWordStats (totalNumberOfLines s) (nbOccurrences s + 1)
    (Z.min (lowestOccurringLine_ s) l) (Z.max (highestOccurringLine_ s) l).
Proof.
  unfold addOneOccurrence, nbOccurrences, totalNumberOfLines. intros H1 Hfit.
  rewrite wrap_small by lia.
  destruct (Z.eqb_spec (nbOccurrences_ s + 1) 1); [lia|reflexivity].
Qed.

(** Reads the members of a [WordStats] given in full. *)
Ltac stats_fields :=
  cbn [nbOccurrences nbOccurrences_ totalNumberOfLines totalNumberOfLines_
       lowestOccurringLine_ highestOccurringLine_] in *.

Lemma recorded_fold (lines : list Z) (s : WordStats) :
  1 <= nbOccurrences s ->
  nbOccurrences s + Z.of_nat (length lines) < Size.modulus ->
  let s' := fold_left (fun s l => addOneOccurrence l s) lines s in
  nbOccurrences s' = nbOccurrences s + Z.of_nat (length lines) /\
  totalNumberOfLines s' = totalNumberOfLines s /\
  (lowestOccurringLine_ s' = lowestOccurringLine_ s \/ In (lowestOccurringLine_ s') lines) /\
  (highestOccurringLine_ s' = highestOccurringLine_ s \/ In (highestOccurringLine_ s') lines) /\
  lowestOccurringLine_ s' <= lowestOccurringLine_ s /\
  highestOccurringLine_ s <= highestOccurringLine_ s' /\
  Forall (fun l => lowestOccurringLine_ s' <= l <= highestOccurringLine_ s') lines.
Proof.
  revert s. induction lines as [|l lines IH]; intros s H1 Hfit; simpl fold_left.
  - simpl. repeat split; auto; lia.
  - simpl length in Hfit.
    rewrite (addOneOccurrence_next l s H1) by lia.
    set (s1 := mkWordStats _ _ _ _).
    destruct (IH s1) as (Hn & Ht & Hlo & Hhi & Hle & Hge & Hall);
      [subst s1; stats_fields; lia|subst s1; stats_fields; lia|].
    subst s1. stats_fields.
    split; [rewrite Hn; simpl length; lia|]. split; [exact Ht|].
    split.
    { destruct Hlo as [Hlo|Hlo]; [|right; now right].
      rewrite Hlo. destruct (Z.min_spec (lowestOccurringLine_ s) l) as [(_ & ->)|(_ & ->)];
        [now left|right; now left]. }
    split.
    { destruct Hhi as [Hhi|Hhi]; [|right; now right].
      rewrite Hhi. destruct (Z.max_spec (highestOccurringLine_ s) l) as [(_ & ->)|(_ & ->)];
        [right; now left|now left]. }
    split; [lia|]. split; [lia|]. constructor; [lia|exact Hall].
Qed.

Lemma recorded_extrema (l0 : Z) (lines : list Z) :
  Z.of_nat (length (l0 :: lines)) < Size.modulus ->
  let s := occurrences_recorded (l0 :: lines) in
  nbOccurrences s = Z.of_nat (length (l0 :: lines)) /\
  In (lowestOccurringLine_ s) (l0 :: lines) /\
  In (highestOccurringLine_ s) (l0 :: lines) /\
  Forall (fun l => lowestOccurringLine_ s <= l <= highestOccurringLine_ s) (l0 :: lines).
Proof.
  intros Hfit s. subst s. unfold occurrences_recorded. simpl fold_left.
  rewrite (addOneOccurrence_first l0 WordStats_new eq_refl).
  set (s1 := mkWordStats _ _ _ _).
  simpl length in Hfit.
  destruct (recorded_fold lines s1) as (Hn & _ & Hlo & Hhi & Hle & Hge & Hall);
    [subst s1; stats_fields; lia|subst s1; stats_fields; lia|].
  subst s1. stats_fields.
  split; [rewrite Hn; simpl length; lia|].
  split; [destruct Hlo as [->|Hlo]; [now left|now right]|].
  split; [destruct Hhi as [->|Hhi]; [now left|now right]|].
  constructor; [lia|exact Hall].
Qed.

(** X8: a [WordStats] that has recorded the lines of a non-empty run of
    fewer than 2^64 occurrences counts them all; its lowest line is the
    smallest of the lines and its highest line the largest, whatever the
    order the lines came in. *)
Theorem occurrences_recorded_extrema (l0 : Z) (lines : list Z) :
  Z.of_nat (length (l0 :: lines)) < Size.modulus ->
  let s := occurrences_recorded (l0 :: lines) in
  nbOccurrences s = Z.of_nat (length (l0 :: lines)) /\
  In (lowestOccurringLine_ s) (l0 :: lines) /\
  In (highestOccurringLine_ s) (l0 :: lines) /\
  Forall (fun l => lowestOccurringLine_ s <= l <= highestOccurringLine_ s) (l0 :: lines).
Proof. apply recorded_extrema. Qed.

Lemma occurrences_recorded_extrema_witness :
  nbOccurrences (occurrences_recorded [7; 3; 5]) = 3 /\
  In (lowestOccurringLine_ (occurrences_recorded [7; 3; 5])) [7; 3; 5] /\
  In (highestOccurringLine_ (occurrences_recorded [7; 3; 5])) [7; 3; 5] /\
  Forall (fun l => lowestOccurringLine_ (occurrences_recorded [7; 3; 5]) <= l
                   <= highestOccurringLine_ (occurrences_recorded [7; 3; 5])) [7; 3; 5].
Proof.
  apply (occurrences_recorded_extrema 7 [3; 5]). reflexivity.
Defined.

Lemma extrema_unique (l l' : list Z) (lo hi lo' hi' : Z) :
  Permutation l l' ->
  In lo l -> In hi l -> Forall (fun x => lo <= x <= hi) l ->
  In lo' l' -> In hi' l' -> Forall (fun x => lo' <= x <= hi') l' ->
  lo = lo' /\ hi = hi'.
Proof.
  intros Hp Hlo Hhi Hall Hlo' Hhi' Hall'.
  rewrite Forall_forall in Hall, Hall'.
  pose proof (Hall' lo (Permutation_in _ Hp Hlo)).
  pose proof (Hall' hi (Permutation_in _ Hp Hhi)).
  pose proof (Hall lo' (Permutation_in _ (Permutation_sym Hp) Hlo')).
  pose proof (Hall hi' (Permutation_in _ (Permutation_sym Hp) Hhi')).
  lia.
Qed.

Lemma occurrences_recorded_total (lines : list Z) :
  totalNumberOfLines (occurrences_recorded lines) = 0.
Proof.
  unfold occurrences_recorded.
  assert (H : totalNumberOfLines WordStats_new = 0) by reflexivity.
  revert H. generalize WordStats_new.
  induction lines as [|l lines IH]; intros s Hs; simpl; [exact Hs|].
  apply IH. unfold addOneOccurrence, totalNumberOfLines in *.
  destruct (Size.wrap (nbOccurrences_ s + 1) =? 1); exact Hs.
Qed.

Lemma recorded_any_order (lines lines' : list Z) :
  Z.of_nat (length lines) < Size.modulus ->
  Permutation lines lines' ->
  occurrences_recorded lines = occurrences_recorded lines'.
Proof.
  intros Hfit Hp.
  pose proof (Permutation_length Hp) as Hlen.
  destruct lines as [|l0 lines].
  - apply Permutation_nil in Hp. now subst lines'.
  - destruct lines' as [|l0' lines']; [discriminate|].
    destruct (recorded_extrema l0 lines Hfit) as (Hn & Hlo & Hhi & Hall).
    destruct (recorded_extrema l0' lines') as (Hn' & Hlo' & Hhi' & Hall');
      [rewrite <- Hlen; exact Hfit|].
    destruct (extrema_unique _ _ _ _ _ _ Hp Hlo Hhi Hall Hlo' Hhi' Hall') as (Elo & Ehi).
    pose proof (occurrences_recorded_total (l0 :: lines)) as Ht.
    pose proof (occurrences_recorded_total (l0' :: lines')) as Ht'.
    rewrite Hlen in Hn. rewrite <- Hn' in Hn.
    unfold nbOccurrences, totalNumberOfLines in *.
    destruct (occurrences_recorded (l0 :: lines)), (occurrences_recorded (l0' :: lines')).
    simpl in *. congruence.
Qed.

(** X9: the statistics of a word do not depend on the order in which its
    occurrences are recorded: two runs of fewer than 2^64 occurrences with
    the same lines, in any order, leave the same [WordStats]. *)
Theorem occurrences_recorded_any_order (lines lines' : list Z) :
  Z.of_nat (length lines) < Size.modulus ->
  Permutation lines lines' ->
  occurrences_recorded lines = occurrences_recorded lines'.
Proof. apply recorded_any_order. Qed.

Lemma occurrences_recorded_any_order_witness :
  occurrences_recorded [7; 3; 5] = occurrences_recorded [5; 7; 3].
Proof.
  apply occurrences_recorded_any_order; [reflexivity|].
  apply Permutation_sym. apply (Permutation_cons_app [7; 3] [] 5). apply Permutation_refl.
Defined.

(** ** The entries of the statistics map *)

Lemma lookup_below (key : list ascii) (m : StdMap.t) :
  Forall (fun e => string_lt key (fst e) = true) m -> lookup key m = None.
Proof.
  induction 1 as [|[k v] m Hk Hm IH]; simpl; [reflexivity|].
  destruct (list_eq_dec ascii_dec key k) as [->|_]; [|exact IH].
  simpl in Hk. rewrite string_lt_irrefl in Hk. discriminate.
Qed.

Lemma lookup_update_ref (k key : list ascii) (f : WordStats -> WordStats) (m : StdMap.t) :
  keys_ascending m ->
  lookup k (StdMap.update_ref key f m) =
  if list_eq_dec ascii_dec k key then Some (f (referred key m)) else lookup k m.
Proof.
  unfold keys_ascending, referred.
  induction 1 as [|[k' v] m Hm IH Hk']; simpl StdMap.update_ref.
  - simpl. destruct (list_eq_dec ascii_dec k key); reflexivity.
  - destruct (string_lt key k') eqn:H1; [|destruct (string_lt k' key) eqn:H2].
    + assert (Hnone : lookup key ((k', v) :: m) = None).
      { apply lookup_below. constructor; [exact H1|].
        eapply Forall_impl; [|exact Hk']. simpl. intros e He.
        now apply (string_lt_trans key k'). }
      rewrite Hnone. simpl.
      destruct (list_eq_dec ascii_dec k key); reflexivity.
    + simpl. rewrite IH.
      destruct (list_eq_dec ascii_dec key k') as [->|_];
        [rewrite string_lt_irrefl in H2; discriminate|].
      destruct (list_eq_dec ascii_dec k k') as [->|_]; [|reflexivity].
      destruct (list_eq_dec ascii_dec k' key) as [->|_]; [|reflexivity].
      rewrite string_lt_irrefl in H2. discriminate.
    + pose proof (string_lt_total _ _ H1 H2) as ->. simpl.
      destruct (list_eq_dec ascii_dec k' k') as [_|Hne]; [|contradiction].
      destruct (list_eq_dec ascii_dec k k'); reflexivity.
Qed.

Lemma lookup_In (k : list ascii) (s : WordStats) (m : StdMap.t) :
  keys_ascending m -> (In (k, s) m <-> lookup k m = Some s).
Proof.
  unfold keys_ascending. induction 1 as [|[k' v] m Hm IH Hk']; simpl.
  - split; [contradiction|discriminate].
  - destruct (list_eq_dec ascii_dec k k') as [->|Hne].
    + split.
      * intros [[= ->]|Hin]; [reflexivity|].
        rewrite Forall_forall in Hk'. specialize (Hk' _ Hin). simpl in Hk'.
        rewrite string_lt_irrefl in Hk'. discriminate.
      * intros [= ->]. now left.
    + rewrite <- IH. split; [intros [[= E _]|Hin]; [now symmetry in E|exact Hin]|now right].
Qed.

Lemma wordStats_fold_ascending (N : Z) (ws : list WordData) (m : StdMap.t) :
  keys_ascending m ->
  keys_ascending
    (fold_left (fun acc w => StdMap.update_ref (word w) (record_occurrence N w) acc) ws m).
Proof.
  revert m. induction ws as [|w ws IH]; intros m Hm; simpl; [exact Hm|].
  apply IH. now apply update_ref_ascending.
Qed.

Lemma wordStats_fold_lookup (N : Z) (k : list ascii) (ws : list WordData) (m : StdMap.t) :
  keys_ascending m ->
  lookup k (fold_left (fun acc w => StdMap.update_ref (word w) (record_occurrence N w) acc)
              ws m) =
  match occurrences_of k ws with
  | [] => lookup k m
  | occ => Some (fold_left (fun s w => record_occurrence N w s) occ (referred k m))
  end.
Proof.
  revert m. induction ws as [|w ws IH]; intros m Hm; simpl fold_left; [reflexivity|].
  rewrite IH by now apply update_ref_ascending.
  unfold occurrences_of. simpl filter. fold (occurrences_of k ws).
  unfold referred at 1. rewrite (lookup_update_ref k (word w) _ m Hm).
  destruct (list_eq_dec ascii_dec (word w) k) as [Hw|Hw].
  - destruct (list_eq_dec ascii_dec k (word w)) as [_|Hne]; [|now symmetry in Hw].
    rewrite Hw. destruct (occurrences_of k ws); reflexivity.
  - destruct (list_eq_dec ascii_dec k (word w)) as [He|_]; [now symmetry in He|].
    reflexivity.
Qed.

Lemma occurrences_of_nonempty (k : list ascii) (ws : list WordData) :
  occurrences_of k ws <> [] <-> In k (map word ws).
Proof.
  unfold occurrences_of. split.
  - intros Hne. destruct (filter _ ws) as [|w occ] eqn:Hf; [contradiction|].
    assert (Hin : In w (filter
                          (fun w => if list_eq_dec ascii_dec (word w) k then true else false)
                          ws)) by (rewrite Hf; now left).
    apply filter_In in Hin. destruct Hin as (Hin & Hw).
    destruct (list_eq_dec ascii_dec (word w) k) as [<-|_]; [|discriminate].
    now apply in_map.
  - intros Hin. apply in_map_iff in Hin. destruct Hin as (w & Hw & Hin).
    intros Hf.
    assert (Hin' : In w (filter
                           (fun w => if list_eq_dec ascii_dec (word w) k then true else false)
                           ws)).
    { apply filter_In. split; [exact Hin|].
      destruct (list_eq_dec ascii_dec (word w) k); [reflexivity|contradiction]. }
    now rewrite Hf in Hin'.
Qed.

Lemma wordStats_entries_spec (ws : list WordData) (N : Z) :
  keys_ascending (wordStats ws N) /\
  (forall k, In k (map fst (wordStats ws N)) <-> In k (map word ws)) /\
  (forall k s, In (k, s) (wordStats ws N) <->
               In k (map word ws) /\ s = stats_of N (occurrences_of k ws)).
Proof.
  pose proof (wordStats_ascending ws N) as Hasc.
  assert (Hentry : forall k s, In (k, s) (wordStats ws N) <->
                               In k (map word ws) /\ s = stats_of N (occurrences_of k ws)).
  { intros k s. rewrite (lookup_In k s _ Hasc), <- occurrences_of_nonempty.
    unfold wordStats.
    change (fun wordStats oneWordData =>
              StdMap.update_ref (word oneWordData)
                (fun oneWordStats =>
                   addOneOccurrence (lineNumber oneWordData)
                     (setTotalNumberOfLines N oneWordStats)) wordStats)
      with (fun acc w => StdMap.update_ref (word w) (record_occurrence N w) acc).
    rewrite (wordStats_fold_lookup N k ws StdMap.empty) by constructor.
    unfold stats_of, referred. simpl lookup.
    destruct (occurrences_of k ws) as [|w occ].
    - split; [discriminate|]. intros (Hne & _). now contradiction Hne.
    - split; [intros [= <-]; split; [discriminate|reflexivity]|].
      intros (_ & ->). reflexivity. }
  split; [exact Hasc|]. split; [|exact Hentry].
  intros k. split.
  - intros Hin. apply in_map_iff in Hin. destruct Hin as ([k' s] & <- & Hin).
    now apply Hentry in Hin.
  - intros Hin. apply in_map_iff.
    exists (k, stats_of N (occurrences_of k ws)). split; [reflexivity|].
    now apply Hentry.
Qed.

(** X10: the map [wordStats] returns has its keys in strictly ascending
    order, its keys are the words of the occurrences it is given, and the
    statistics of a word are what [setTotalNumberOfLines] and
    [addOneOccurrence] make of the occurrences of this word, taken in the
    order of the sequence, from a default [WordStats]. *)
Theorem wordStats_entries (ws : list WordData) (N : Z) :
  keys_ascending (wordStats ws N) /\
  (forall k, In k (map fst (wordStats ws N)) <-> In k (map word ws)) /\
  (forall k s, In (k, s) (wordStats ws N) <->
               In k (map word ws) /\ s = stats_of N (occurrences_of k ws)).
Proof. apply wordStats_entries_spec. Qed.

Lemma setTotal_addOne (N l : Z) (s : WordStats) :
  setTotalNumberOfLines N (addOneOccurrence l s) =
  addOneOccurrence l (setTotalNumberOfLines N s).
Proof.
  unfold setTotalNumberOfLines, addOneOccurrence. simpl.
  destruct (Size.wrap (nbOccurrences_ s + 1) =? 1); reflexivity.
Qed.

Lemma record_fold_recorded (N : Z) (occ : list WordData) (s : WordStats) :
  fold_left (fun s w => record_occurrence N w s) occ (setTotalNumberOfLines N s) =
  setTotalNumberOfLines N (fold_left (fun s l => addOneOccurrence l s) (map lineNumber occ) s).
Proof.
  revert s. induction occ as [|w occ IH]; intros s; simpl; [reflexivity|].
  unfold record_occurrence at 2.
  change (setTotalNumberOfLines N (setTotalNumberOfLines N s))
    with (setTotalNumberOfLines N s).
  rewrite <- setTotal_addOne. apply IH.
Qed.

Lemma stats_of_recorded (N : Z) (occ : list WordData) :
  occ <> [] ->
  stats_of N occ = setTotalNumberOfLines N (occurrences_recorded (map lineNumber occ)).
Proof.
  destruct occ as [|w occ]; [contradiction|]. intros _.
  unfold stats_of, occurrences_recorded. simpl fold_left.
  unfold record_occurrence at 2. rewrite <- setTotal_addOne.
  apply record_fold_recorded.
Qed.

Lemma wordStats_entry_spec (ws : list WordData) (N : Z) (k : list ascii)
    (s : WordStats) :
  Z.of_nat (length ws) < Size.modulus ->
  In (k, s) (wordStats ws N) ->
  let lines := map lineNumber (occurrences_of k ws) in
  totalNumberOfLines s = N /\
  nbOccurrences s = Z.of_nat (length lines) /\
  In (lowestOccurringLine_ s) lines /\
  In (highestOccurringLine_ s) lines /\
  Forall (fun l => lowestOccurringLine_ s <= l <= highestOccurringLine_ s) lines.
Proof.
  intros Hfit Hin lines. subst lines.
  apply (proj2 (proj2 (wordStats_entries_spec ws N))) in Hin. destruct Hin as (Hk & ->).
  apply occurrences_of_nonempty in Hk.
  rewrite (stats_of_recorded N _ Hk).
  pose proof (filter_length_le
                (fun w => if list_eq_dec ascii_dec (word w) k then true else false) ws) as Hle.
  fold (occurrences_of k ws) in Hle.
  destruct (occurrences_of k ws) as [|w occ]; [contradiction|].
  simpl map.
  destruct (recorded_extrema (lineNumber w) (map lineNumber occ))
    as (Hn & Hlo & Hhi & Hall).
  { simpl length in *. rewrite length_map. lia. }
  split; [reflexivity|]. split; [exact Hn|]. split; [exact Hlo|]. split; [exact Hhi|exact Hall].
Qed.

(** X11: when [wordStats] is given fewer than 2^64 occurrences, the entry of
    a word holds the number of lines it was given, the number of occurrences
    of the word in the sequence, and as lowest and highest lines the smallest
    and the largest line of these occurrences. *)
Theorem wordStats_entry_statistics (ws : list WordData) (N : Z) (k : list ascii)
    (s : WordStats) :
  Z.of_nat (length ws) < Size.modulus ->
  In (k, s) (wordStats ws N) ->
  let lines := map lineNumber (occurrences_of k ws) in
  totalNumberOfLines s = N /\
  nbOccurrences s = Z.of_nat (length lines) /\
  In (lowestOccurringLine_ s) lines /\
  In (highestOccurringLine_ s) lines /\
  Forall (fun l => lowestOccurringLine_ s <= l <= highestOccurringLine_ s) lines.
Proof. apply wordStats_entry_spec. Qed.

Lemma wordStats_entry_statistics_witness :
  let ws := [mkWordData (str "cat") 0; mkWordData (str "dog") 1; mkWordData (str "cat") 2] in
  let lines := map lineNumber (occurrences_of (str "cat") ws) in
  totalNumberOfLines cat_stats = 4 /\
  nbOccurrences cat_stats = Z.of_nat (length lines) /\
  In (lowestOccurringLine_ cat_stats) lines /\
  In (highestOccurringLine_ cat_stats) lines /\
  Forall (fun l => lowestOccurringLine_ cat_stats <= l <= highestOccurringLine_ cat_stats) lines.
Proof.
  apply (wordStats_entry_statistics
           [mkWordData (str "cat") 0; mkWordData (str "dog") 1; mkWordData (str "cat") 2]
           4 (str "cat") cat_stats).
  - reflexivity.
  - left. reflexivity.
Defined.

(** ** The ranking, from the text *)

Lemma span_exact (N : Z) (s : WordStats) :
  N < Size.modulus -> StatsInv N s ->
  span s = highestOccurringLine_ s - lowestOccurringLine_ s + 1.
Proof.
  intros HN [Ht Hs Hl Ho Hh H1]. unfold span, nbOccurrences in *.
  destruct (Z.eqb_spec (nbOccurrences_ s) 0) as [H0|_]; [lia|].
  apply wrap_small. lia.
Qed.

(** X12: the ranking [getWordCount] returns has one entry for each word the
    tokenizer returns in camel-case mode and no other; the entry of a word
    holds the number of its occurrences, and its span is the number of lines
    from the first line to the last line the word is met on. *)
Theorem getWordCount_entries (code : list ascii) (out : WordCount) :
  representable code -> getWordCount code out ->
  exists ws,
    getWordDataFromCode WordsInCamelCase code = Some ws /\
    (forall k, In k (map fst out) <-> In k (map word ws)) /\
    (forall k s, In (k, s) out ->
       let lines := map lineNumber (occurrences_of k ws) in
       nbOccurrences s = Z.of_nat (length lines) /\
       In (lowestOccurringLine_ s) lines /\
       In (highestOccurringLine_ s) lines /\
       Forall (fun l => lowestOccurringLine_ s <= l <= highestOccurringLine_ s) lines /\
       span s = highestOccurringLine_ s - lowestOccurringLine_ s + 1).
Proof.
  intros Hfit Hout.
  destruct (pipeline_stats code out Hfit Hout) as (ws & Hws & Hinv & _).
  destruct Hout as (ws' & Hws' & Hperm & _).
  rewrite Hws in Hws'. injection Hws' as <-.
  destruct (tokenizer_lines WordsInCamelCase code Hfit) as (ws' & Hws' & _ & _ & Hlen).
  rewrite Hws in Hws'. injection Hws' as <-.
  assert (Hsize : Z.of_nat (length ws) < Size.modulus)
    by (unfold representable in Hfit; size_consts; lia).
  exists ws. split; [exact Hws|]. split.
  - intros k. rewrite <- (proj1 (proj2 (wordStats_entries_spec ws (numberOfLines code))) k).
    split; apply Permutation_in; [apply Permutation_sym|]; now apply Permutation_map.
  - intros k s Hin lines.
    assert (Hin' : In (k, s) (wordStats ws (numberOfLines code)))
      by (apply (Permutation_in _ (Permutation_sym Hperm)); exact Hin).
    destruct (wordStats_entry_spec ws _ k s Hsize Hin') as (_ & Hn & Hlo & Hhi & Hall).
    repeat (split; [assumption|]).
    rewrite Forall_forall in Hinv. specialize (Hinv _ Hin).
    exact (span_exact _ _ (proj2 (numberOfLines_range code)) Hinv).
Qed.

Lemma getWordCount_entries_witness :
  exists ws,
    getWordDataFromCode WordsInCamelCase text_cat_dog_cat = Some ws /\
    (forall k, In k (map fst ranking_cat_dog_cat) <-> In k (map word ws)) /\
    (forall k s, In (k, s) ranking_cat_dog_cat ->
       let lines := map lineNumber (occurrences_of k ws) in
       nbOccurrences s = Z.of_nat (length lines) /\
       In (lowestOccurringLine_ s) lines /\
       In (highestOccurringLine_ s) lines /\
       Forall (fun l => lowestOccurringLine_ s <= l <= highestOccurringLine_ s) lines /\
       span s = highestOccurringLine_ s - lowestOccurringLine_ s + 1).
Proof.
  exact (getWordCount_entries text_cat_dog_cat ranking_cat_dog_cat
           representable_cat_dog_cat getWordCount_cat_dog_cat).
Defined.

(** X13: in the ranking [getWordCount] returns every entry carries a number
    of lines of at least 1, the number of lines of the text: [proportion]
    never takes its branch for a text of no line, and is the quotient, in
    [double], of the span by the number of lines of the text. *)
Theorem ranked_proportion_is_quotient (code : list ascii) (out : WordCount) :
  representable code -> getWordCount code out ->
  Forall (fun e =>
            1 <= totalNumberOfLines (snd e) /\
            totalNumberOfLines (snd e) = numberOfLines code /\
            proportion (snd e) =
              Double.div (Double.of_Z (span (snd e))) (Double.of_Z (numberOfLines code)))
    out.
Proof.
  intros Hfit Hout.
  destruct (pipeline_stats code out Hfit Hout) as (ws & _ & Hinv & _).
  eapply Forall_impl; [|exact Hinv]. simpl. intros e [Ht Hs Hl Ho Hh H1].
  split; [lia|]. split; [exact Ht|]. unfold proportion. rewrite Ht.
  destruct (Z.eqb_spec (numberOfLines code) 0) as [H0|_]; [lia|reflexivity].
Qed.

Lemma ranked_proportion_is_quotient_witness :
  Forall (fun e =>
            1 <= totalNumberOfLines (snd e) /\
            totalNumberOfLines (snd e) = numberOfLines text_cat_dog_cat /\
            proportion (snd e) =
              Double.div (Double.of_Z (span (snd e)))
                (Double.of_Z (numberOfLines text_cat_dog_cat)))
    ranking_cat_dog_cat.
Proof.
  exact (ranked_proportion_is_quotient text_cat_dog_cat ranking_cat_dog_cat
           representable_cat_dog_cat getWordCount_cat_dog_cat).
Defined.

(** ** The order of the occurrences does not matter to the map *)

(** X14: [wordStats] builds the same map from the same occurrences in any
    order, when they are fewer than 2^64. *)
Theorem wordStats_any_order (ws ws' : list WordData) (N : Z) :
  Z.of_nat (length ws) < Size.modulus ->
  Permutation ws ws' ->
  wordStats ws N = wordStats ws' N.
Proof.
  intros Hfit Hp.
  destruct (wordStats_entries_spec ws N) as (Hasc & _ & Hent).
  destruct (wordStats_entries_spec ws' N) as (Hasc' & _ & Hent').
  apply ascending_ext; [exact Hasc|exact Hasc'|].
  assert (Hstats : forall k, In k (map word ws) ->
                             stats_of N (occurrences_of k ws) = stats_of N (occurrences_of k ws')).
  { intros k Hk.
    assert (Hpo : Permutation (occurrences_of k ws) (occurrences_of k ws'))
      by now apply Permutation_filter'.
    pose proof (proj2 (occurrences_of_nonempty k ws) Hk) as Hne.
    assert (Hne' : occurrences_of k ws' <> []).
    { intros E. rewrite E in Hpo. apply Permutation_sym, Permutation_nil in Hpo.
      contradiction. }
    rewrite !stats_of_recorded by assumption. f_equal.
    apply recorded_any_order; [|now apply Permutation_map].
    rewrite length_map.
    pose proof (filter_length_le
                  (fun w => if list_eq_dec ascii_dec (word w) k then true else false) ws).
    unfold occurrences_of. lia. }
  assert (Hwords : forall k, In k (map word ws) <-> In k (map word ws')).
  { intros k. split; apply Permutation_in;
      [|apply Permutation_sym]; now apply Permutation_map. }
  intros [k s]. rewrite Hent, Hent'. split.
  - intros (Hk & ->). split; [now apply Hwords|now apply Hstats].
  - intros (Hk & ->). apply Hwords in Hk. split; [exact Hk|]. symmetry. now apply Hstats.
Qed.

Lemma wordStats_any_order_witness :
  wordStats [mkWordData (str "cat") 0; mkWordData (str "dog") 1; mkWordData (str "cat") 2] 4 =
  wordStats [mkWordData (str "cat") 2; mkWordData (str "cat") 0; mkWordData (str "dog") 1] 4.
Proof.
  apply wordStats_any_order; [reflexivity|].
  apply Permutation_sym.
  apply (Permutation_cons_app
           [mkWordData (str "cat") 0; mkWordData (str "dog") 1] [] (mkWordData (str "cat") 2)).
  apply Permutation_refl.
Defined.

(** ** The two modes *)

Lemma find_if_in_ext (p q : ascii -> bool) (l : list ascii) (first : nat) :
  (forall c, In c l -> p c = q c) -> Std.find_if_in l first p = Std.find_if_in l first q.
Proof.
  revert first. induction l as [|c l IH]; intros first Hpq; simpl; [reflexivity|].
  rewrite (Hpq c (or_introl eq_refl)). destruct (q c); [reflexivity|].
  apply IH. intros x Hx. apply Hpq. now right.
Qed.

Lemma scan_loop_ext (code : list ascii) (p q : ascii -> bool) :
  (forall c, In c code -> p c = q c) ->
  forall fuel st, scan_loop fuel code p st = scan_loop fuel code q st.
Proof.
  intros Hpq.
  assert (Hstep : forall st, scan_step code p st = scan_step code q st).
  { intros st. unfold scan_step, Std.find_if.
    rewrite (find_if_in_ext p q); [reflexivity|].
    intros c Hc. apply Hpq. exact (range_incl code _ _ c Hc). }
  induction fuel as [|fuel IH]; intros st;
    rewrite (scan_loop_eq _ code p st), (scan_loop_eq _ code q st);
    destruct (beginWord st =? Std.end_ code)%nat; try reflexivity.
  rewrite Hstep. apply IH.
Qed.

(** X15: on a text without upper-case letter the two modes of the
    tokenizer return the same occurrences. *)
Theorem modes_agree_without_upper_case (code : list ascii) :
  count_upper code = 0%nat ->
  getWordDataFromCode WordsInCamelCase code = getWordDataFromCode EntireWords code.
Proof.
  intros Hup. unfold getWordDataFromCode, getWordDataFromCode_pred.
  apply scan_loop_ext. intros c Hc. simpl.
  destruct (isupper c) eqn:Hu; [|apply orb_false_r].
  exfalso. unfold count_upper in Hup. apply length_zero_iff_nil in Hup.
  assert (Hin : In c (filter isupper code)) by (apply filter_In; now split).
  now rewrite Hup in Hin.
Qed.

Lemma modes_agree_without_upper_case_witness :
  getWordDataFromCode WordsInCamelCase text_cat_dog_cat =
  getWordDataFromCode EntireWords text_cat_dog_cat.
Proof.
  apply modes_agree_without_upper_case. reflexivity.
Defined.
